(** * Green strain from Nominal strain: the numerical core of greenStrain.py

    The development embeds the three array functions of the script,
    [quat2matrix], [tensor2] and [green], together with the orientation
    branch of [calculateGE], and checks the documented behaviour against them.

    numpy arrays are objects with identity: [np.asarray] hands back the very
    array it is given, [copy] and [np.empty_like] allocate, and the augmented
    assignments write in place.  Arrays therefore live in a store, and the
    functions are programs of a state-and-exception monad over that store. *)

From Stdlib Require Import ZArith Reals Lra String PrimFloat Uint63.
From Stdlib Require Import SpecFloat FloatOps FloatAxioms.
From stdpp Require Import base option list strings gmap.

(** ** Element types

    The script works on floating-point arrays (the field data of an output
    database, or nested lists of Python floats) and never fixes their
    precision: the arithmetic is numpy's on the elements of the array it
    receives.  [Scalar] collects the operations used; [lit] is the promotion
    of a Python integer literal ([1], [2], [-1]) to the element type. *)

Class Scalar (T : Type) := {
  lit : Z → T;
  sadd : T → T → T;
  ssub : T → T → T;
  smul : T → T → T;
  sdiv : T → T → T;
}.

(** IEEE 754 binary64, numpy's [float64]: what [np.asarray] makes of a nested
    list of Python floats. *)
Definition float64_lit (z : Z) : float :=
  match z with
  | Z0 => PrimFloat.of_uint63 0%uint63
  | Zpos p => PrimFloat.of_uint63 (Uint63.of_pos p)
  | Zneg p => PrimFloat.opp (PrimFloat.of_uint63 (Uint63.of_pos p))
  end.

#[export] Instance float64 : Scalar float := {|
  lit := float64_lit;
  sadd := PrimFloat.add;
  ssub := PrimFloat.sub;
  smul := PrimFloat.mul;
  sdiv := PrimFloat.div;
|}.

(** Exact real arithmetic, in which the formulas of the documentation are
    written. *)
#[export] Instance reals : Scalar R := {|
  lit := IZR;
  sadd := Rplus;
  ssub := Rminus;
  smul := Rmult;
  sdiv := Rdiv;
|}.

(** ** Exceptions *)

Inductive exn :=
  | AssertionError (msg : string)
  | IndexError
  | ValueError
  | ReferenceError.

(** ** Arrays *)

Record ndarray (T : Type) := NdArray {
  shape : list nat;
  data : list T;   (* row-major *)
}.
Arguments NdArray {T} _ _.
Arguments shape {T} _.
Arguments data {T} _.

Definition loc := nat.

(** The store: array objects by identity. *)
Abbreviation heap T := (gmap loc (ndarray T)).

Section Numpy.
Context {T : Type} `{Scalar T}.

(** What a freshly allocated, uninitialised buffer holds at each cell
    ([np.empty_like]).  Nothing may depend on it. *)
Variable uninit : nat → T.

Definition well_formed (a : ndarray T) : Prop :=
  length (data a) = foldr Nat.mul 1 (shape a).

(** *** One-dimensional operands and broadcasting *)

Inductive operand :=
  | Sc (x : T)
  | Vec (v : list T).

Definition broadcast (f : T → T → T) (a b : operand) : exn + operand :=
  match a, b with
  | Sc x, Sc y => inr (Sc (f x y))
  | Sc x, Vec v => inr (Vec (f x <$> v))
  | Vec u, Sc y => inr (Vec ((λ x, f x y) <$> u))
  | Vec u, Vec v =>
      if decide (length u = length v) then inr (Vec (zip_with f u v))
      else match u, v with
           | [x], _ => inr (Vec (f x <$> v))
           | _, [y] => inr (Vec ((λ x, f x y) <$> u))
           | _, _ => inl ValueError
           end
  end.

(** *** Two-dimensional views of the flat buffer

    The script indexes, transposes and iterates arrays only after it has
    checked that they have two dimensions (or has built them so).  The
    operations below are those of a 2-D array; on any other rank they raise,
    which the script never reaches. *)

Fixpoint chunks (n m : nat) (d : list T) : list (list T) :=
  match n with
  | 0 => []
  | S n' => take m d :: chunks n' m (drop m d)
  end.

(** [a[:, j]] of a 2-D array. *)
Definition column (j : nat) (a : ndarray T) : exn + operand :=
  match shape a with
  | [n; m] =>
      if decide (j < m) then
        match mapM (λ r : list T, r !! j) (chunks n m (data a)) with
        | Some c => inr (Vec c)
        | None => inl IndexError
        end
      else inl IndexError
  | _ => inl IndexError
  end.

(** [a[:, j] = c] on a 2-D array. *)
Definition set_column (j : nat) (c : operand) (a : ndarray T) : exn + ndarray T :=
  match shape a with
  | [n; m] =>
      if decide (j < m) then
        match c with
        | Sc x => inr (NdArray [n; m] (concat ((λ r, <[j:=x]> r) <$> chunks n m (data a))))
        | Vec v =>
            if decide (length v = n)
            then inr (NdArray [n; m] (concat (zip_with (λ r x, <[j:=x]> r) (chunks n m (data a)) v)))
            else match v with
                 | [x] => inr (NdArray [n; m] (concat ((λ r, <[j:=x]> r) <$> chunks n m (data a))))
                 | _ => inl ValueError
                 end
        end
      else inl IndexError
  | _ => inl IndexError
  end.

(** [a[:, k:] = f(a[:, k:])] and [a[:, :k] = f(a[:, :k])], elementwise. *)
Definition map_from (k : nat) (f : T → T) (a : ndarray T) : exn + ndarray T :=
  match shape a with
  | [n; m] => inr (NdArray [n; m] (concat ((λ r, take k r ++ (f <$> drop k r)) <$> chunks n m (data a))))
  | _ => inl IndexError
  end.

Definition map_upto (k : nat) (f : T → T) (a : ndarray T) : exn + ndarray T :=
  match shape a with
  | [n; m] => inr (NdArray [n; m] (concat ((λ r, (f <$> take k r) ++ drop k r) <$> chunks n m (data a))))
  | _ => inl IndexError
  end.

Definition empty_like (a : ndarray T) : ndarray T :=
  NdArray (shape a) (uninit <$> seq 0 (length (data a))).

(** [np.asarray] of a list of 1-D operands: one row per operand. *)
Definition stack (l : list operand) : exn + ndarray T :=
  match l with
  | Vec v :: _ =>
      match mapM (λ o, match o with
                       | Vec u => if decide (length u = length v) then Some u else None
                       | Sc _ => None
                       end) l with
      | Some rs => inr (NdArray [length l; length v] (concat rs))
      | None => inl ValueError
      end
  | _ => inl ValueError
  end.

(** [a.T] of a 2-D array: row [i] of the result is column [i] of [a]. *)
Definition transpose (a : ndarray T) : exn + ndarray T :=
  match shape a with
  | [n; m] =>
      inr (NdArray [m; n]
             (concat (foldr (zip_with cons) (replicate m []) (chunks n m (data a)))))
  | _ => inl ValueError
  end.

(** [a.reshape(-1, 3, 3)]: the buffer is kept, the leading extent inferred. *)
Definition reshape_3_3 (a : ndarray T) : exn + ndarray T :=
  if decide (length (data a) `mod` 9 = 0)
  then inr (NdArray [length (data a) `div` 9; 3; 3] (data a))
  else inl ValueError.

(** Iterating a 2-D array yields its rows, as 1-D arrays. *)
Definition iter_rows (a : ndarray T) : exn + list operand :=
  match shape a with
  | [n; m] => inr (Vec <$> chunks n m (data a))
  | _ => inl ValueError
  end.

(** ** The store and its monad *)

Definition M (A : Type) : Type := heap T → exn + A * heap T.

Definition ret {A} (x : A) : M A := λ h, inr (x, h).

Definition bind {A B} (m : M A) (k : A → M B) : M B :=
  λ h, match m h with
       | inl e => inl e
       | inr (x, h') => k x h'
       end.

Definition raise {A} (e : exn) : M A := λ _, inl e.

Definition lift {A} (r : exn + A) : M A :=
  match r with
  | inl e => raise e
  | inr x => ret x
  end.

Definition load (l : loc) : M (ndarray T) :=
  λ h, match h !! l with
       | Some a => inr (a, h)
       | None => inl ReferenceError
       end.

Definition store (l : loc) (a : ndarray T) : M unit :=
  λ h, inr (tt, <[l:=a]> h).

Definition alloc (a : ndarray T) : M loc :=
  λ h, let l := fresh (dom h) in inr (l, <[l:=a]> h).

Definition py_assert (b : bool) (msg : string) : M unit :=
  if b then ret tt else raise (AssertionError msg).

End Numpy.

Arguments M T A : clear implicits.
Arguments operand T : clear implicits.

Declare Scope np_scope.
Delimit Scope np_scope with np.
Notation "x ← m ; k" := (bind m (λ x, k))
  (at level 20, m at level 100, k at level 200, only parsing, right associativity) : np_scope.
Notation "m ;; k" := (bind m (λ _, k))
  (at level 100, k at level 200, right associativity) : np_scope.

(** ** The script *)

(** An argument of the array functions: an array object of the store, or a
    nested Python sequence, written as the array [np.asarray] builds from
    it. *)
Inductive pyobj (T : Type) :=
  | Ref (l : loc)
  | Nested (a : ndarray T).
Arguments Ref {T} _.
Arguments Nested {T} _.

Section Script.
Context {T : Type} `{Scalar T}.
Variable uninit : nat → T.

Local Open Scope np_scope.

(** [np.asarray]: an array is returned as it is, not copied. *)
Definition asarray (o : pyobj T) : M T loc :=
  match o with
  | Ref l => _ ← load l; ret l
  | Nested a => alloc a
  end.

(** [a.copy()] and [np.empty_like(a)]. *)
Definition copy (l : loc) : M T loc :=
  a ← load l; alloc a.

Definition np_empty_like (l : loc) : M T loc :=
  a ← load l; alloc (empty_like uninit a).

(** [shape[i]] of the shape tuple. *)
Definition shape_item (l : loc) (i : nat) : M T nat :=
  a ← load l;
  match shape a !! i with
  | Some n => ret n
  | None => raise IndexError
  end.

Definition ndim (l : loc) : M T nat :=
  a ← load l; ret (length (shape a)).

(** [A[:, j]] read, and [A[:, j] = c] written in place. *)
Definition col (A : loc) (j : nat) : M T (operand T) :=
  a ← load A; lift (column j a).

Definition set_col (A : loc) (j : nat) (c : operand T) : M T unit :=
  a ← load A; a' ← lift (set_column j c a); store A a'.

(** Elementwise arithmetic, operands evaluated left to right. *)
Definition binop (f : T → T → T) (x y : M T (operand T)) : M T (operand T) :=
  a ← x; b ← y; lift (broadcast f a b).

(** [V[:, k:] op= c] and [V[:, :k] op= c]. *)
Definition update_from (V : loc) (k : nat) (f : T → T) : M T unit :=
  a ← load V; a' ← lift (map_from k f a); store V a'.

Definition update_upto (V : loc) (k : nat) (f : T → T) : M T unit :=
  a ← load V; a' ← lift (map_upto k f a); store V a'.

Notation "x + y" := (binop sadd x y) : np_scope.
Notation "x - y" := (binop ssub x y) : np_scope.
Notation "x * y" := (binop smul x y) : np_scope.
Notation "1" := (ret (Sc (lit 1))) : np_scope.
Notation "2" := (ret (Sc (lit 2))) : np_scope.

(** [quat2matrix], lines 72-80. *)
Definition quat2matrix (quatArray : pyobj T) : M T loc :=
  quatArray ← asarray quatArray;
  d ← ndim quatArray;
  py_assert (bool_decide (2%nat = d)) "Must be a 2D array";;
  c ← shape_item quatArray 1;
  py_assert (bool_decide (4%nat = c)) "Must be an array of quaternions";;
  a ← load quatArray;
  qT ← lift (transpose a);
  qs ← lift (iter_rows qT);
  match qs with
  | [q1; q2; q3; q0] =>
      let q1 := ret q1 in let q2 := ret q2 in let q3 := ret q3 in let q0 := ret q0 in
      e11 ← 1 - 2*q2*q2 - 2*q3*q3;  e12 ← 2*q1*q2 - 2*q0*q3;  e13 ← 2*q1*q3 + 2*q0*q2;
      e21 ← 2*q1*q2 + 2*q0*q3;  e22 ← 1 - 2*q1*q1 - 2*q3*q3;  e23 ← 2*q2*q3 - 2*q0*q1;
      e31 ← 2*q1*q3 - 2*q0*q2;  e32 ← 2*q2*q3 + 2*q0*q1;  e33 ← 1 - 2*q1*q1 - 2*q2*q2;
      s ← lift (stack [e11; e12; e13; e21; e22; e23; e31; e32; e33]);
      t ← lift (transpose s);
      r ← lift (reshape_3_3 t);
      alloc r
  | _ => raise ValueError
  end.

(** [tensor2], lines 93-106. *)
Definition tensor2 (A : pyobj T) : M T loc :=
  A ← asarray A;
  d ← ndim A;
  py_assert (bool_decide (2%nat = d)) "Data must be a 2D array of tensors";;
  c ← shape_item A 1;
  py_assert (bool_decide (6%nat = c)) "Data elements must be in Abaqus symmetric tensor format";;
  result ← np_empty_like A;
  let '(t11, t22, t33, t12, t13, t23) := (0, 1, 2, 3, 4, 5)%nat in
  let '(t21, t31, t32) := (t12, t13, t23) in
  (v ← col A t11 * col A t11 + col A t12 * col A t21 + col A t13 * col A t31; set_col result t11 v);;
  (v ← col A t21 * col A t12 + col A t22 * col A t22 + col A t23 * col A t32; set_col result t22 v);;
  (v ← col A t31 * col A t13 + col A t32 * col A t23 + col A t33 * col A t33; set_col result t33 v);;
  (v ← col A t11 * col A t12 + col A t12 * col A t22 + col A t13 * col A t32; set_col result t12 v);;
  (v ← col A t11 * col A t13 + col A t12 * col A t23 + col A t13 * col A t33; set_col result t13 v);;
  (v ← col A t21 * col A t13 + col A t22 * col A t23 + col A t23 * col A t33; set_col result t23 v);;
  ret result.

(** [green], lines 119-130. *)
Definition green (NEarray : pyobj T) : M T loc :=
  NEarray ← asarray NEarray;
  d ← ndim NEarray;
  py_assert (bool_decide (2%nat = d)) "NEarray must be a 2D array of tensors";;
  c ← shape_item NEarray 1;
  py_assert (bool_decide (6%nat = c)) "NEarray elements must be in Abaqus symmetric tensor format";;
  V ← copy NEarray;
  update_from V 3 (λ x, sdiv x (lit 2));;
  update_upto V 3 (λ x, sadd x (lit 1));;
  V ← tensor2 (Ref V);
  update_upto V 3 (λ x, ssub x (lit 1));;
  update_upto V 3 (λ x, sdiv x (lit 2));;
  ret V.

(** The orientation branch of [calculateGE], lines 156-158: the block's
    quaternions are copied, the scalar component of the copy is multiplied
    by -1 in place, and the copy is converted.  [np.ascontiguousarray] changes the memory layout
    only. *)
Definition calculateGE_localCoordSystem (localCoordSystem : loc) : M T loc :=
  quatArray ← copy localCoordSystem;
  (v ← col quatArray 3 * ret (Sc (lit (-1))); set_col quatArray 3 v);;
  quat2matrix (Ref quatArray).

(** The array a program returns, when it returns. *)
Definition result_of (m : M T loc) (h : heap T) : exn + ndarray T :=
  match m h with
  | inl e => inl e
  | inr (l, h') =>
      match h' !! l with
      | Some a => inr a
      | None => inl ReferenceError
      end
  end.

End Script.


(** ** Batches, row by row

    The documentation speaks of batches of packed tensors, of quaternions
    and of 3×3 matrices.  These are the arrays of shape (N,6), (N,4) and
    (N,3,3); the records below name the components of one row. *)

Record sym (T : Type) := Sym { c11 : T; c22 : T; c33 : T; c12 : T; c13 : T; c23 : T }.
Arguments Sym {T} _ _ _ _ _ _.
Arguments c11 {T} _.
Arguments c22 {T} _.
Arguments c33 {T} _.
Arguments c12 {T} _.
Arguments c13 {T} _.
Arguments c23 {T} _.

Record quat (T : Type) := Quat { qx : T; qy : T; qz : T; qw : T }.
Arguments Quat {T} _ _ _ _.
Arguments qx {T} _.
Arguments qy {T} _.
Arguments qz {T} _.
Arguments qw {T} _.

Record mat3 (T : Type) := Mat3 {
  m11 : T; m12 : T; m13 : T;
  m21 : T; m22 : T; m23 : T;
  m31 : T; m32 : T; m33 : T;
}.
Arguments Mat3 {T} _ _ _ _ _ _ _ _ _.
Arguments m11 {T} _.
Arguments m12 {T} _.
Arguments m13 {T} _.
Arguments m21 {T} _.
Arguments m22 {T} _.
Arguments m23 {T} _.
Arguments m31 {T} _.
Arguments m32 {T} _.
Arguments m33 {T} _.

Section Batches.
Context {T : Type}.

Definition pack (t : sym T) : list T :=
  [c11 t; c22 t; c33 t; c12 t; c13 t; c23 t].

Definition batch (ts : list (sym T)) : ndarray T :=
  NdArray [length ts; 6] (concat (pack <$> ts)).

Definition qpack (q : quat T) : list T := [qx q; qy q; qz q; qw q].

Definition quats (qs : list (quat T)) : ndarray T :=
  NdArray [length qs; 4] (concat (qpack <$> qs)).

Definition mflat (m : mat3 T) : list T :=
  [m11 m; m12 m; m13 m; m21 m; m22 m; m23 m; m31 m; m32 m; m33 m].

Definition mats (ms : list (mat3 T)) : ndarray T :=
  NdArray [length ms; 3; 3] (concat (mflat <$> ms)).

(** Component [j] of a packed row. *)
Definition comp (j : nat) (t : sym T) : T :=
  match j with
  | 0 => c11 t | 1 => c22 t | 2 => c33 t | 3 => c12 t | 4 => c13 t | _ => c23 t
  end.

Definition set_comp (j : nat) (t : sym T) (x : T) : sym T :=
  match j with
  | 0 => Sym x (c22 t) (c33 t) (c12 t) (c13 t) (c23 t)
  | 1 => Sym (c11 t) x (c33 t) (c12 t) (c13 t) (c23 t)
  | 2 => Sym (c11 t) (c22 t) x (c12 t) (c13 t) (c23 t)
  | 3 => Sym (c11 t) (c22 t) (c33 t) x (c13 t) (c23 t)
  | 4 => Sym (c11 t) (c22 t) (c33 t) (c12 t) x (c23 t)
  | _ => Sym (c11 t) (c22 t) (c33 t) (c12 t) (c13 t) x
  end.

(** A function applied to the shear components (indices 3, 4, 5) of a row,
    and to its normal components (indices 0, 1, 2). *)
Definition on_shear (f : T → T) (t : sym T) : sym T :=
  Sym (c11 t) (c22 t) (c33 t) (f (c12 t)) (f (c13 t)) (f (c23 t)).

Definition on_normal (f : T → T) (t : sym T) : sym T :=
  Sym (f (c11 t)) (f (c22 t)) (f (c33 t)) (c12 t) (c13 t) (c23 t).

(** The transpose of one matrix. *)
Definition mtranspose (m : mat3 T) : mat3 T :=
  Mat3 (m11 m) (m21 m) (m31 m)
       (m12 m) (m22 m) (m32 m)
       (m13 m) (m23 m) (m33 m).

End Batches.

(** ** What the documentation says, row by row *)

Declare Scope scalar_scope.
Delimit Scope scalar_scope with S.
Infix "+" := sadd : scalar_scope.
Infix "-" := ssub : scalar_scope.
Infix "*" := smul : scalar_scope.
Infix "/" := sdiv : scalar_scope.

Section Documentation.
Context {T : Type} `{Scalar T}.
Local Open Scope scalar_scope.

(** The six packed components of A·A (Symmetric Tensor Self-Product). *)
Definition self_product (A : sym T) : sym T :=
  let A11 := c11 A in let A22 := c22 A in let A33 := c33 A in
  let A12 := c12 A in let A13 := c13 A in let A23 := c23 A in
  Sym (A11*A11 + A12*A12 + A13*A13)
      (A12*A12 + A22*A22 + A23*A23)
      (A13*A13 + A23*A23 + A33*A33)
      (A11*A12 + A12*A22 + A13*A23)
      (A11*A13 + A12*A23 + A13*A33)
      (A12*A13 + A22*A23 + A23*A33).

(** The reference: a packed row unpacked into the full symmetric matrix, the
    full 3×3 matrix product, and the packing of a matrix. *)
Definition unpack (A : sym T) : mat3 T :=
  Mat3 (c11 A) (c12 A) (c13 A)
       (c12 A) (c22 A) (c23 A)
       (c13 A) (c23 A) (c33 A).

Definition mmul (M N : mat3 T) : mat3 T :=
  Mat3 (m11 M * m11 N + m12 M * m21 N + m13 M * m31 N)
       (m11 M * m12 N + m12 M * m22 N + m13 M * m32 N)
       (m11 M * m13 N + m12 M * m23 N + m13 M * m33 N)
       (m21 M * m11 N + m22 M * m21 N + m23 M * m31 N)
       (m21 M * m12 N + m22 M * m22 N + m23 M * m32 N)
       (m21 M * m13 N + m22 M * m23 N + m23 M * m33 N)
       (m31 M * m11 N + m32 M * m21 N + m33 M * m31 N)
       (m31 M * m12 N + m32 M * m22 N + m33 M * m32 N)
       (m31 M * m13 N + m32 M * m23 N + m33 M * m33 N).

Definition pack_matrix (M : mat3 T) : sym T :=
  Sym (m11 M) (m22 M) (m33 M) (m12 M) (m13 M) (m23 M).

Definition identity3 : mat3 T :=
  Mat3 (lit 1) (lit 0) (lit 0)
       (lit 0) (lit 1) (lit 0)
       (lit 0) (lit 0) (lit 1).

(** The four steps of the Green Strain Transform. *)
Definition shear_to_tensor (NE : sym T) : sym T :=
  on_shear (λ x, x / lit 2) NE.

Definition add_identity (NE : sym T) : sym T :=
  on_normal (λ x, x + lit 1) NE.

Definition subtract_identity (W : sym T) : sym T :=
  on_normal (λ x, x - lit 1) W.

Definition halve_normals (W : sym T) : sym T :=
  on_normal (λ x, x / lit 2) W.

Definition green_steps (NE : sym T) : sym T :=
  halve_normals (subtract_identity (self_product (add_identity (shear_to_tensor NE)))).

(** The standard quaternion-to-rotation-matrix formula, components ordered
    (x, y, z, w). *)
Definition rotation (q : quat T) : mat3 T :=
  let x := qx q in let y := qy q in let z := qz q in let w := qw q in
  Mat3 (lit 1 - lit 2 * (y*y + z*z))  (lit 2 * (x*y - w*z))  (lit 2 * (x*z + w*y))
       (lit 2 * (x*y + w*z))  (lit 1 - lit 2 * (x*x + z*z))  (lit 2 * (y*z - w*x))
       (lit 2 * (x*z - w*y))  (lit 2 * (y*z + w*x))  (lit 1 - lit 2 * (x*x + y*y)).

(** The nine expressions of [quat2matrix], as the script writes them. *)
Definition quat2matrix_row (q : quat T) : mat3 T :=
  let q1 := qx q in let q2 := qy q in let q3 := qz q in let q0 := qw q in
  Mat3 (lit 1 - lit 2*q2*q2 - lit 2*q3*q3)  (lit 2*q1*q2 - lit 2*q0*q3)  (lit 2*q1*q3 + lit 2*q0*q2)
       (lit 2*q1*q2 + lit 2*q0*q3)  (lit 1 - lit 2*q1*q1 - lit 2*q3*q3)  (lit 2*q2*q3 - lit 2*q0*q1)
       (lit 2*q1*q3 - lit 2*q0*q2)  (lit 2*q2*q3 + lit 2*q0*q1)  (lit 1 - lit 2*q1*q1 - lit 2*q2*q2).

(** The in-place update [quatArray[:, 3] *= -1] on one row. *)
Definition negate_scalar (q : quat T) : quat T :=
  Quat (qx q) (qy q) (qz q) (qw q * lit (-1)).

(** ** Running a program *)

Definition value (h : heap T) (o : pyobj T) : option (ndarray T) :=
  match o with
  | Ref l => h !! l
  | Nested a => Some a
  end.

(** [returns m h a]: run in store [h], the program [m] ends without an
    exception and returns an array object that was not in [h], holding [a];
    every array of [h] is still there and holds what it held. *)
Definition returns (m : M T loc) (h : heap T) (a : ndarray T) : Prop :=
  ∃ l h', m h = inr (l, h') ∧ h' !! l = Some a ∧ h !! l = None
          ∧ ∀ l0 a0, h !! l0 = Some a0 → h' !! l0 = Some a0.

(** [fails m h]: the program ends with an [AssertionError]. *)
Definition fails_assertion {A} (m : M T A) (h : heap T) : Prop :=
  ∃ msg, m h = inl (AssertionError msg).

End Documentation.

(** Quaternions over the reals. *)
Definition unit_quaternion (q : quat R) : Prop :=
  (qx q * qx q + qy q * qy q + qz q * qz q + qw q * qw q = 1)%R.

Definition conjugate (q : quat R) : quat R :=
  Quat (qx q) (qy q) (qz q) (- qw q)%R.

(** Quaternions in binary64: of unit length as the arithmetic of the array
    computes the length, left to right; and with the scalar component
    negated. *)
Definition unit_quaternion64 (q : quat float) : Prop :=
  (qx q * qx q + qy q * qy q + qz q * qz q + qw q * qw q = 1)%float.

Definition conjugate64 (q : quat float) : quat float :=
  Quat (qx q) (qy q) (qz q) (- qw q)%float.

(** [np.zeros((n, m))] in float64. *)
Definition zeros (n m : nat) : ndarray float :=
  NdArray [n; m] (replicate (n * m) 0%float).


(** ** The output database

    [calculateGE], [fromOdb] and the command line work on an Abaqus output
    database, which the script only reaches through calls: it opens and
    closes the database, reads steps, frames, fields and blocks, creates a
    field and hands it data.  What is read is data; what is called is
    recorded, in order, as a trace.  Values the script passes along without
    looking inside (positions, instances, labels, field types, invariants,
    section points) are of a type [obj] left open. *)

Record block (obj : Type) := Block {
  position : obj;
  instance : obj;
  elementLabels : obj;
  block_data : loc;                    (* [block.data], an array object *)
  sectionPoint : obj;
  localCoordSystem : option loc;       (* [None], or an array object *)
}.
Arguments Block {obj} _ _ _ _ _ _.
Arguments position {obj} _.
Arguments instance {obj} _.
Arguments elementLabels {obj} _.
Arguments block_data {obj} _.
Arguments sectionPoint {obj} _.
Arguments localCoordSystem {obj} _.

Record fieldOutput (obj : Type) := FieldOutput {
  type : obj;
  validInvariants : obj;
  bulkDataBlocks : list (block obj);
}.
Arguments FieldOutput {obj} _ _ _.
Arguments type {obj} _.
Arguments validInvariants {obj} _.
Arguments bulkDataBlocks {obj} _.

Record frame (obj : Type) := Frame {
  fieldOutputs : gmap string (fieldOutput obj);
}.
Arguments Frame {obj} _.
Arguments fieldOutputs {obj} _.

Record step (obj : Type) := Step {
  frames : list (frame obj);
}.
Arguments Step {obj} _.
Arguments frames {obj} _.

Record odb (obj : Type) := Odb {
  steps : list (string * step obj);    (* the repository, in its order *)
}.
Arguments Odb {obj} _.
Arguments steps {obj} _.

(** The keyword arguments of [addData]; the arrays are given by what they
    hold when the call is made. *)
Record options (T obj : Type) := Options {
  opt_position : obj;
  opt_instance : obj;
  opt_labels : obj;
  opt_data : ndarray T;
  opt_sectionPoint : option obj;            (* key present or not *)
  opt_localCoordSystem : option (ndarray T);
}.
Arguments Options {T obj} _ _ _ _ _ _.
Arguments opt_position {T obj} _.
Arguments opt_instance {T obj} _.
Arguments opt_labels {T obj} _.
Arguments opt_data {T obj} _.
Arguments opt_sectionPoint {T obj} _.
Arguments opt_localCoordSystem {T obj} _.

Inductive call (T obj : Type) :=
  | openOdb_call (odbName : string)
  | close_call (odbName : string)
  | FieldOutput_call (outputFrame : frame obj) (name description : string)
      (type validInvariants : obj) (isEngineeringTensor : bool)
  | addData_call (outputFrame : frame obj) (name : string) (kwargs : options T obj)
  | print_doc_call
  | print_stderr_call (text : string)
  | set_printoptions_call (precision : nat) (suppress : bool)
  | doctest_testmod_call (verbose : bool).
Arguments openOdb_call {T obj} _.
Arguments close_call {T obj} _.
Arguments FieldOutput_call {T obj} _ _ _ _ _ _.
Arguments addData_call {T obj} _ _ _.
Arguments print_doc_call {T obj}.
Arguments print_stderr_call {T obj} _.
Arguments set_printoptions_call {T obj} _ _.
Arguments doctest_testmod_call {T obj} _.

(** An exception of the array functions, or one raised by the database. *)
Inductive io_exn :=
  | Raised (e : exn)
  | OdbError (msg : string).

Section Odb.
Context {T : Type} `{Scalar T} {obj : Type}.

(** Uninitialised memory, as before. *)
Variable uninit : nat → T.
(** The truth value numpy gives an element ([x != 0]) and a Python object
    that is not an array. *)
Variable nonzero : T → bool.
Variable truth : obj → bool.
(** The module's switch. *)
Variable enableLocalCoordSystem : bool.
(** The databases there are. *)
Variable openOdb : string → string + odb obj.

(** Programs that also make calls: the calls made are kept when an
    exception ends the run. *)
Definition IO (A : Type) : Type :=
  heap T → list (call T obj) * (io_exn + A * heap T).

Definition io_ret {A} (x : A) : IO A := λ h, ([], inr (x, h)).

Definition io_bind {A B} (m : IO A) (k : A → IO B) : IO B :=
  λ h, match m h with
       | (t, inl e) => (t, inl e)
       | (t, inr (x, h')) => let '(t', r) := k x h' in (t ++ t', r)
       end.

Definition io_raise {A} (e : io_exn) : IO A := λ _, ([], inl e).

Definition emit (c : call T obj) : IO unit := λ h, ([c], inr (tt, h)).

Definition run {A} (m : M T A) : IO A :=
  λ h, match m h with
       | inl e => ([], inl (Raised e))
       | inr r => ([], inr r)
       end.

(** [try: body finally: cleanup]. *)
Definition finally {A} (body : IO A) (cleanup : IO unit) : IO A :=
  λ h, match body h with
       | (t, inl e) =>
           (* the store an exception leaves is not modelled; the cleanup
              here makes calls only *)
           let '(t', r) := cleanup h in
           (t ++ t', match r with inl e' => inl e' | inr _ => inl e end)
       | (t, inr (x, h')) =>
           let '(t', r) := cleanup h' in
           (t ++ t', match r with inl e' => inl e' | inr (_, h'') => inr (x, h'') end)
       end.

Fixpoint for_each {X} (l : list X) (body : X → IO unit) : IO unit :=
  match l with
  | [] => io_ret tt
  | x :: l' => io_bind (body x) (λ _, for_each l' body)
  end.

(** [np.any(x)] for [x] that is [None] or an array. *)
Definition np_any (x : option loc) : M T bool :=
  match x with
  | None => ret false
  | Some l => bind (load l) (λ a, ret (existsb nonzero (data a)))
  end.

(** [GE.addData] with the keyword arguments collected in [options]: the
    call, with the arrays as they are when it is made. *)
Definition addData (outputFrame : frame obj) (name : string)
    (position instance labels : obj) (data : loc)
    (sectionPoint : option obj) (localCoordSystem : option loc) : IO unit :=
  io_bind (run (load data)) (λ d,
  io_bind (match localCoordSystem with
           | Some m => io_bind (run (load m)) (λ a, io_ret (Some a))
           | None => io_ret None
           end) (λ m,
  emit (addData_call outputFrame name
          (Options position instance labels d sectionPoint m)))).

(** The body of the loop of [calculateGE], lines 145-159: one block. *)
Definition calculateGE_block (outputFrame : frame obj) (block : block obj) : IO unit :=
  io_bind (run (green uninit (Ref (block_data block)))) (λ data,
  let sp := if truth (sectionPoint block) then Some (sectionPoint block) else None in
  io_bind (if enableLocalCoordSystem then run (np_any (localCoordSystem block))
           else io_ret false) (λ oriented,
  io_bind (match localCoordSystem block with
           | Some l =>
               if oriented then
                 io_bind (run (calculateGE_localCoordSystem l)) (λ m,
                 io_ret (Some m))
               else io_ret None
           | None => io_ret None
           end) (λ lcs,
  addData outputFrame "GE" (position block) (instance block)
    (elementLabels block) data sp lcs))).

(** [calculateGE], lines 136-159. *)
Definition calculateGE (NE : fieldOutput obj) (outputFrame : frame obj) : IO unit :=
  io_bind (emit (FieldOutput_call outputFrame "GE" "Green strain components"
                   (type NE) (validInvariants NE) true)) (λ _,
  for_each (bulkDataBlocks NE) (calculateGE_block outputFrame)).

(** The body of the loops of [fromOdb], lines 171-173: one frame. *)
Definition fromOdb_frame (frame : frame obj) : IO unit :=
  match fieldOutputs frame !! "NE" with
  | Some NE => calculateGE NE frame
  | None => io_ret tt
  end.

(** [fromOdb], lines 165-173: [closing] closes the database however the
    body ends. *)
Definition fromOdb (odbName : string) : IO unit :=
  io_bind (emit (openOdb_call odbName)) (λ _,
  match openOdb odbName with
  | inl msg => io_raise (OdbError msg)
  | inr odb =>
      finally
        (for_each (snd <$> steps odb) (λ step,
           for_each (frames step) fromOdb_frame))
        (emit (close_call odbName))
  end).

(** One turn of the module-level loop, lines 178-186. *)
Definition main_arg (arg : string) : IO unit :=
  if decide ("--help" = arg) then emit print_doc_call
  else if decide ("--test" = arg) then
    io_bind (emit (set_printoptions_call 3 true)) (λ _,
    emit (doctest_testmod_call true))
  else
    io_bind (emit (print_stderr_call arg)) (λ _, fromOdb arg).

(** The module-level loop over [sys.argv[1:]], lines 176-186. *)
Definition main (argv : list string) : IO unit :=
  for_each (drop 1 argv) main_arg.

End Odb.

Arguments IO T obj A : clear implicits.

(** ** What the database calls should be *)

Section OdbDocumentation.
Context {T : Type} `{Scalar T} {obj : Type}.
Variable nonzero : T → bool.
Variable truth : obj → bool.
Variable enableLocalCoordSystem : bool.

(** A block together with the rows its arrays hold. *)
Record block_rows := BlockRows {
  the_block : block obj;
  NE_rows : list (sym T);
  quaternion_rows : option (list (quat T));
}.

Definition holds (h : heap T) (b : block_rows) : Prop :=
  h !! block_data (the_block b) = Some (batch (NE_rows b))
  ∧ match localCoordSystem (the_block b), quaternion_rows b with
    | Some l, Some qs => h !! l = Some (quats qs)
    | None, None => True
    | _, _ => False
    end.

(** The keyword arguments [calculateGE] should pass for a block. *)
Definition GE_options (b : block_rows) : options T obj :=
  Options (position (the_block b)) (instance (the_block b))
    (elementLabels (the_block b))
    (batch (green_steps <$> NE_rows b))
    (if truth (sectionPoint (the_block b))
     then Some (sectionPoint (the_block b)) else None)
    (match quaternion_rows b with
     | Some qs =>
         if enableLocalCoordSystem && existsb nonzero (data (quats qs))
         then Some (mats (quat2matrix_row <$> (negate_scalar <$> qs)))
         else None
     | None => None
     end).

Definition GE_call (outputFrame : frame obj) (b : block_rows) : call T obj :=
  addData_call outputFrame "GE" (GE_options b).

Definition GE_field_call (NE : fieldOutput obj) (outputFrame : frame obj)
    : call T obj :=
  FieldOutput_call outputFrame "GE" "Green strain components"
    (type NE) (validInvariants NE) true.

(** The frames in which a trace creates a field, in order, and the calls of
    a trace that reach the database's contents. *)
Definition created_in (t : list (call T obj)) : list (frame obj) :=
  omap (λ c, match c with
             | FieldOutput_call fr _ _ _ _ _ => Some fr
             | _ => None
             end) t.

Definition is_addData (c : call T obj) : Prop :=
  match c with
  | addData_call _ _ _ => True
  | _ => False
  end.

Definition is_field_call (c : call T obj) : Prop :=
  match c with
  | FieldOutput_call _ _ _ _ _ _ | addData_call _ _ _ => True
  | _ => False
  end.

Definition passes_no_orientation (c : call T obj) : Prop :=
  match c with
  | addData_call _ _ kwargs => opt_localCoordSystem kwargs = None
  | _ => True
  end.

(** What the two flags of the command line print and run. *)
Definition flag_calls (arg : string) : list (call T obj) :=
  if decide ("--help" = arg) then [print_doc_call]
  else [set_printoptions_call 3 true; doctest_testmod_call true].

Definition is_flag (arg : string) : Prop :=
  arg = "--help" ∨ arg = "--test".

(** The frames of a database, step by step. *)
Definition all_frames (db : odb obj) : list (frame obj) :=
  (snd <$> steps db) ≫= frames.

End OdbDocumentation.

Arguments block_rows T obj : clear implicits.

(** ** More of the mathematics *)

Section Tensors.
Context {T : Type} `{Scalar T}.
Local Open Scope scalar_scope.

Definition madd (M N : mat3 T) : mat3 T :=
  Mat3 (m11 M + m11 N) (m12 M + m12 N) (m13 M + m13 N)
       (m21 M + m21 N) (m22 M + m22 N) (m23 M + m23 N)
       (m31 M + m31 N) (m32 M + m32 N) (m33 M + m33 N).

Definition msub (M N : mat3 T) : mat3 T :=
  Mat3 (m11 M - m11 N) (m12 M - m12 N) (m13 M - m13 N)
       (m21 M - m21 N) (m22 M - m22 N) (m23 M - m23 N)
       (m31 M - m31 N) (m32 M - m32 N) (m33 M - m33 N).

Definition mhalf (M : mat3 T) : mat3 T :=
  Mat3 (m11 M / lit 2) (m12 M / lit 2) (m13 M / lit 2)
       (m21 M / lit 2) (m22 M / lit 2) (m23 M / lit 2)
       (m31 M / lit 2) (m32 M / lit 2) (m33 M / lit 2).

Definition det3 (M : mat3 T) : T :=
  m11 M * (m22 M * m33 M - m23 M * m32 M)
  - m12 M * (m21 M * m33 M - m23 M * m31 M)
  + m13 M * (m21 M * m32 M - m22 M * m31 M).

(** A symmetric tensor in the packed format with engineering shear: the
    off-diagonal entries doubled. *)
Definition engineering (E : mat3 T) : sym T :=
  Sym (m11 E) (m22 E) (m33 E)
      (lit 2 * m12 E) (lit 2 * m13 E) (lit 2 * m23 E).

(** The relations of the module's docstring, lines 26-36, for one packed
    row: [NE] as a tensor, [V = NE + I], and [GE = 1/2(V*V - I)]. *)
Definition nominal_tensor (NE : sym T) : mat3 T :=
  unpack (shear_to_tensor NE).

Definition stretch (NE : sym T) : mat3 T :=
  madd (nominal_tensor NE) identity3.

Definition green_tensor (NE : sym T) : mat3 T :=
  mhalf (msub (mmul (stretch NE) (stretch NE)) identity3).

End Tensors.

Definition negate (q : quat R) : quat R :=
  Quat (- qx q)%R (- qy q)%R (- qz q)%R (- qw q)%R.

(** ** A small database

    One step with two frames, the first with a field "NE" of two blocks
    (one with a section point and quaternions, one without), the second
    without the field; and a second database without any "NE".  Opaque
    objects are strings, with Python's truth value of a string. *)

Definition example_store : heap float :=
  <[0:=NdArray [1; 6] [1; 2; 3; 4; 5; 6]%float]>
    (<[1:=NdArray [1; 4] [0; 0; 0; 1]%float]>
       (<[2:=NdArray [1; 5] [0; 0; 0; 1; 2]%float]> ∅)).

Definition example_nonzero (x : float) : bool := negb (PrimFloat.eqb x 0).

Definition example_truth (o : string) : bool := negb (String.eqb o "").

Definition example_oriented : block string :=
  Block "INTEGRATION_POINT" "PART-1-1" "labels 1" 0 "top" (Some 1).

Definition example_plain : block string :=
  Block "INTEGRATION_POINT" "PART-1-1" "labels 2" 0 "" None.

Definition example_bad : block string :=
  Block "INTEGRATION_POINT" "PART-1-1" "labels 3" 2 "" None.

Definition example_NE : fieldOutput string :=
  FieldOutput "TENSOR_3D_FULL" "invariants" [example_oriented; example_plain].

Definition example_bad_NE : fieldOutput string :=
  FieldOutput "TENSOR_3D_FULL" "invariants"
    [example_plain; example_bad; example_oriented].

Definition example_frame : frame string :=
  Frame (<["NE":=example_NE]> ∅).

Definition example_odb : odb string :=
  Odb [("Step-1", Step [example_frame; Frame ∅])].

Definition example_odb_without_NE : odb string :=
  Odb [("Step-1", Step [Frame ∅]); ("Step-2", Step [Frame ∅; Frame ∅])].

Definition example_openOdb (odbName : string) : string + odb string :=
  if decide (odbName = "Job-1.odb") then inr example_odb
  else if decide (odbName = "Job-2.odb") then inr example_odb_without_NE
  else inl "cannot open".

Definition example_rows : list (block_rows float string) :=
  [BlockRows example_oriented [Sym 1 2 3 4 5 6]%float (Some [Quat 0 0 0 1]%float);
   BlockRows example_plain [Sym 1 2 3 4 5 6]%float None].

(** ** Two quaternions

    A quaternion that is not of unit length, and the unit quaternion
    (0, 1/3, 2/3, 2/3), a rotation by about 96 degrees: over the reals, and
    rounded to binary64, where the length computed is still exactly 1. *)

#[warnings="-inexact-float"] Definition example_quaternion : quat float :=
  (Quat 0.1 0.2 0.3 0.4)%float.

Definition example_unit_quaternion : quat R :=
  (Quat 0 (1/3) (2/3) (2/3))%R.

#[warnings="-inexact-float"] Definition example_unit_quaternion64 : quat float :=
  (Quat 0 0.3333333333333333 0.6666666666666666 0.6666666666666666)%float.

(** ** Lists cut into rows *)

Section Chunks.
Context {T : Type}.
Implicit Types (d : list T) (rs : list (list T)).

Lemma chunks_concat m rs :
  Forall (λ r, length r = m) rs → chunks (length rs) m (concat rs) = rs.
Proof.
  induction 1 as [|r rs Hr _ IH]; simpl; [done|].
  by rewrite take_app_length', drop_app_length', IH.
Qed.

Lemma length_chunks n m d : length (chunks n m d) = n.
Proof. revert d; induction n; intros; simpl; auto. Qed.

Lemma chunks_rows n m d :
  length d = n * m → Forall (λ r, length r = m) (chunks n m d).
Proof.
  revert d; induction n as [|n IH]; intros d Hd; simpl; constructor.
  - rewrite length_take. simpl in Hd. lia.
  - apply IH. rewrite length_drop. simpl in Hd. lia.
Qed.

Lemma concat_chunks n m d : length d = n * m → concat (chunks n m d) = d.
Proof.
  revert d; induction n as [|n IH]; intros d Hd; simpl.
  - by destruct d.
  - rewrite IH, ?take_drop; [done|]. rewrite length_drop. simpl in Hd. lia.
Qed.

Lemma length_concat_rows m rs :
  Forall (λ r, length r = m) rs → length (concat rs) = length rs * m.
Proof. induction 1; simpl; [done|]. rewrite length_app. lia. Qed.

(** Transposing rows into columns, and columns into rows. *)
Lemma columns_of_rows {Q} (gs : list (Q → T)) (l : list Q) :
  foldr (zip_with cons) (replicate (length gs) []) ((λ x, (λ g, g x) <$> gs) <$> l)
  = (λ g, g <$> l) <$> gs.
Proof.
  induction l as [|x l IH].
  - induction gs; simpl; f_equal; auto.
  - rewrite fmap_cons. cbn [foldr]. rewrite IH. clear IH.
    induction gs; simpl; f_equal; auto.
Qed.

Lemma rows_of_columns {Q} (gs : list (Q → T)) (l : list Q) :
  foldr (zip_with cons) (replicate (length l) []) ((λ g, g <$> l) <$> gs)
  = (λ x, (λ g, g x) <$> gs) <$> l.
Proof.
  induction gs as [|g gs IH].
  - induction l; simpl; f_equal; auto.
  - rewrite fmap_cons. cbn [foldr]. rewrite IH. clear IH.
    induction l; simpl; f_equal; auto.
Qed.

End Chunks.

(** Every well-formed array of shape (N,6) is a batch of packed tensors, and
    every well-formed array of shape (N,4) a batch of quaternions. *)
Section Representation.
Context {T : Type}.

Lemma rows_pack (rs : list (list T)) :
  Forall (λ r, length r = 6) rs → ∃ ts, rs = pack <$> ts.
Proof.
  induction 1 as [|r rs Hr _ [ts ->]]; [by exists []|].
  do 7 (destruct r as [|? r]; try done).
  by eexists (Sym _ _ _ _ _ _ :: ts).
Qed.

Lemma rows_qpack (rs : list (list T)) :
  Forall (λ r, length r = 4) rs → ∃ qs, rs = qpack <$> qs.
Proof.
  induction 1 as [|r rs Hr _ [qs ->]]; [by exists []|].
  do 5 (destruct r as [|? r]; try done).
  by eexists (Quat _ _ _ _ :: qs).
Qed.

Lemma batch_repr (a : ndarray T) n :
  well_formed a → shape a = [n; 6] → ∃ ts, a = batch ts ∧ length ts = n.
Proof.
  destruct a as [s d]; unfold well_formed; simpl; intros Hd ->. simpl in Hd.
  assert (length d = n * 6) as Hd' by lia.
  destruct (rows_pack (chunks n 6 d)) as [ts Hts]; [by apply chunks_rows|].
  exists ts. assert (length ts = n) as Hn.
  { by rewrite <-(length_chunks n 6 d), Hts, length_fmap. }
  split; [|done]. unfold batch. by rewrite Hn, <-Hts, concat_chunks.
Qed.

Lemma quats_repr (a : ndarray T) n :
  well_formed a → shape a = [n; 4] → ∃ qs, a = quats qs ∧ length qs = n.
Proof.
  destruct a as [s d]; unfold well_formed; simpl; intros Hd ->. simpl in Hd.
  assert (length d = n * 4) as Hd' by lia.
  destruct (rows_qpack (chunks n 4 d)) as [qs Hqs]; [by apply chunks_rows|].
  exists qs. assert (length qs = n) as Hn.
  { by rewrite <-(length_chunks n 4 d), Hqs, length_fmap. }
  split; [|done]. unfold quats. by rewrite Hn, <-Hqs, concat_chunks.
Qed.

Lemma batch_well_formed (ts : list (sym T)) : well_formed (batch ts).
Proof.
  unfold well_formed, batch; simpl.
  rewrite (length_concat_rows 6), length_fmap; [lia|].
  by apply Forall_fmap, Forall_true.
Qed.

End Representation.

(** ** The array primitives on batches *)

Section Primitives.
Context {T : Type}.
Implicit Types (ts : list (sym T)) (qs : list (quat T)).

Lemma chunks_concat' n m (rs : list (list T)) :
  n = length rs → Forall (λ r, length r = m) rs → chunks n m (concat rs) = rs.
Proof. intros ->. apply chunks_concat. Qed.

Lemma chunks_batch ts : chunks (length ts) 6 (concat (pack <$> ts)) = pack <$> ts.
Proof.
  apply chunks_concat'; [by rewrite length_fmap|].
  by apply Forall_fmap, Forall_true.
Qed.

Lemma chunks_quats qs : chunks (length qs) 4 (concat (qpack <$> qs)) = qpack <$> qs.
Proof.
  apply chunks_concat'; [by rewrite length_fmap|].
  by apply Forall_fmap, Forall_true.
Qed.

Lemma pack_lookup j (t : sym T) : j < 6 → pack t !! j = Some (comp j t).
Proof. intros Hj. do 6 (destruct j as [|j]; [done|]). lia. Qed.

Lemma pack_insert j (t : sym T) x : j < 6 → <[j:=x]> (pack t) = pack (set_comp j t x).
Proof. intros Hj. do 6 (destruct j as [|j]; [done|]). lia. Qed.

Lemma column_batch j ts :
  j < 6 → column j (batch ts) = inr (Vec (comp j <$> ts)).
Proof.
  intros Hj. unfold column, batch; cbn [shape data].
  rewrite chunks_batch, decide_True by done.
  erewrite mapM_Some_2; [done|].
  apply Forall2_fmap, Forall_Forall2_diag, Forall_forall; intros t _.
  by apply pack_lookup.
Qed.

Lemma set_column_batch j ts (v : list T) :
  j < 6 → length v = length ts →
  set_column j (Vec v) (batch ts) = inr (batch (zip_with (set_comp j) ts v)).
Proof.
  intros Hj Hv. unfold set_column, batch; cbn [shape data].
  rewrite chunks_batch, !decide_True by done.
  rewrite length_zip_with_l_eq by done. do 3 f_equal.
  revert v Hv; induction ts as [|t ts IH]; intros [|x v] ?; simplify_eq/=; [done|].
  f_equal; [by apply pack_insert|auto].
Qed.

Lemma map_from_batch f ts :
  map_from 3 f (batch ts) = inr (batch (on_shear f <$> ts)).
Proof.
  unfold map_from, batch; cbn [shape data].
  by rewrite chunks_batch, length_fmap, <-!list_fmap_compose.
Qed.

Lemma map_upto_batch f ts :
  map_upto 3 f (batch ts) = inr (batch (on_normal f <$> ts)).
Proof.
  unfold map_upto, batch; cbn [shape data].
  by rewrite chunks_batch, length_fmap, <-!list_fmap_compose.
Qed.

Lemma empty_like_batch (uninit : nat → T) ts :
  ∃ us, empty_like uninit (batch ts) = batch us ∧ length us = length ts.
Proof.
  apply batch_repr; [|done].
  unfold well_formed, empty_like; cbn [shape data foldr].
  rewrite length_fmap, length_seq. apply batch_well_formed.
Qed.

Lemma broadcast_rows {Q} (f : T → T → T) (g k : Q → T) (l : list Q) :
  broadcast f (Vec (g <$> l)) (Vec (k <$> l)) = inr (Vec ((λ x, f (g x) (k x)) <$> l)).
Proof.
  unfold broadcast. rewrite decide_True by by rewrite !length_fmap.
  do 2 f_equal. induction l; simpl; f_equal; auto.
Qed.

Lemma broadcast_scalar_l {Q} (f : T → T → T) (c : T) (k : Q → T) (l : list Q) :
  broadcast f (Sc c) (Vec (k <$> l)) = inr (Vec ((λ x, f c (k x)) <$> l)).
Proof. unfold broadcast. by rewrite <-list_fmap_compose. Qed.

Lemma broadcast_scalar_r {Q} (f : T → T → T) (g : Q → T) (c : T) (l : list Q) :
  broadcast f (Vec (g <$> l)) (Sc c) = inr (Vec ((λ x, f (g x) c) <$> l)).
Proof. unfold broadcast. by rewrite <-list_fmap_compose. Qed.

Lemma transpose_quats qs :
  transpose (quats qs)
  = inr (NdArray [4; length qs] (concat ((λ g, g <$> qs) <$> [qx; qy; qz; qw]))).
Proof.
  unfold transpose, quats; cbn [shape data]. rewrite chunks_quats.
  by rewrite <-(columns_of_rows [qx; qy; qz; qw] qs).
Qed.

Lemma iter_rows_columns {Q} (gs : list (Q → T)) (l : list Q) :
  iter_rows (NdArray [length gs; length l] (concat ((λ g, g <$> l) <$> gs)))
  = inr ((λ g, Vec (g <$> l)) <$> gs).
Proof.
  unfold iter_rows; cbn [shape data]. rewrite chunks_concat'.
  - by rewrite <-list_fmap_compose.
  - by rewrite length_fmap.
  - apply Forall_fmap, Forall_true; intros g. apply length_fmap.
Qed.

Lemma stack_columns {Q} (g0 : Q → T) (gs : list (Q → T)) (l : list Q) :
  stack ((λ g, Vec (g <$> l)) <$> g0 :: gs)
  = inr (NdArray [S (length gs); length l] (concat ((λ g, g <$> l) <$> g0 :: gs))).
Proof.
  unfold stack. rewrite fmap_cons.
  erewrite (mapM_Some_2 _ _ ((λ g, g <$> l) <$> g0 :: gs)).
  - by rewrite length_cons, !length_fmap.
  - change (Vec (g0 <$> l) :: ((λ g, Vec (g <$> l)) <$> gs))
      with ((λ g : Q → T, Vec (g <$> l)) <$> g0 :: gs).
    apply Forall2_fmap, Forall_Forall2_diag, Forall_true.
    intros g. by rewrite decide_True by by rewrite !length_fmap.
Qed.

Lemma transpose_columns {Q} (gs : list (Q → T)) (l : list Q) :
  transpose (NdArray [length gs; length l] (concat ((λ g, g <$> l) <$> gs)))
  = inr (NdArray [length l; length gs] (concat ((λ x, (λ g, g x) <$> gs) <$> l))).
Proof.
  unfold transpose; cbn [shape data]. rewrite chunks_concat'.
  - by rewrite rows_of_columns.
  - by rewrite length_fmap.
  - apply Forall_fmap, Forall_true; intros g. apply length_fmap.
Qed.

Lemma reshape_rows {Q} (f : Q → mat3 T) (l : list Q) :
  reshape_3_3 (NdArray [length l; 9] (concat ((λ x, mflat (f x)) <$> l)))
  = inr (mats (f <$> l)).
Proof.
  unfold reshape_3_3, mats; cbn [data].
  assert (length (concat ((λ x, mflat (f x)) <$> l)) = length l * 9) as ->.
  { rewrite (length_concat_rows 9), length_fmap; [done|].
    by apply Forall_fmap, Forall_true. }
  rewrite decide_True by apply Nat.Div0.mod_mul.
  by rewrite Nat.div_mul, length_fmap, <-list_fmap_compose.
Qed.

Lemma column_scalar qs :
  column 3 (quats qs) = inr (Vec (qw <$> qs)).
Proof.
  unfold column, quats; cbn [shape data].
  rewrite chunks_quats, decide_True by lia.
  erewrite mapM_Some_2; [done|].
  by apply Forall2_fmap, Forall_Forall2_diag, Forall_true.
Qed.

Lemma set_column_scalar qs (f : quat T → T) :
  set_column 3 (Vec (f <$> qs)) (quats qs)
  = inr (quats ((λ q, Quat (qx q) (qy q) (qz q) (f q)) <$> qs)).
Proof.
  unfold set_column, quats; cbn [shape data].
  rewrite chunks_quats, decide_True by lia.
  rewrite decide_True by by rewrite length_fmap.
  rewrite length_fmap. do 3 f_equal.
  induction qs as [|q qs IH]; simpl; f_equal; auto.
Qed.

End Primitives.

(** ** Running the store primitives *)

Section Exec.
Context {T : Type} `{Scalar T}.
Variable uninit : nat → T.
Implicit Types (h : heap T) (a : ndarray T) (ts : list (sym T)).

Lemma bind_inr {A B} (m : M T A) (k : A → M T B) h x h' :
  m h = inr (x, h') → bind m k h = k x h'.
Proof. unfold bind. by intros ->. Qed.

Lemma bind_inl {A B} (m : M T A) (k : A → M T B) h e :
  m h = inl e → bind m k h = inl e.
Proof. unfold bind. by intros ->. Qed.

Lemma load_Some h l a : h !! l = Some a → load l h = inr (a, h).
Proof. unfold load. by intros ->. Qed.

Lemma lift_inr {A} (r : exn + A) (x : A) h : r = inr x → lift r h = inr (x, h).
Proof. by intros ->. Qed.

Lemma asarray_Ref h l a : h !! l = Some a → asarray (Ref l) h = inr (l, h).
Proof. intros Hl. unfold asarray. by erewrite bind_inr by by apply load_Some. Qed.

Lemma ndim_Some h l a : h !! l = Some a → ndim l h = inr (length (shape a), h).
Proof. intros Hl. unfold ndim. by erewrite bind_inr by by apply load_Some. Qed.

Lemma shape_item_Some h l a i n :
  h !! l = Some a → shape a !! i = Some n → shape_item l i h = inr (n, h).
Proof.
  intros Hl Hi. unfold shape_item.
  erewrite bind_inr by by apply load_Some. by rewrite Hi.
Qed.

Lemma fresh_lookup h : h !! fresh (dom h) = None.
Proof. apply not_elem_of_dom, is_fresh. Qed.

Lemma alloc_fresh h a : alloc a h = inr (fresh (dom h), <[fresh (dom h):=a]> h).
Proof. done. Qed.

Lemma copy_Some h l a :
  h !! l = Some a → copy l h = inr (fresh (dom h), <[fresh (dom h):=a]> h).
Proof. intros Hl. unfold copy. by erewrite bind_inr by by apply load_Some. Qed.

Lemma np_empty_like_Some h l a :
  h !! l = Some a →
  np_empty_like uninit l h
  = inr (fresh (dom h), <[fresh (dom h):=empty_like uninit a]> h).
Proof. intros Hl. unfold np_empty_like. by erewrite bind_inr by by apply load_Some. Qed.

Lemma col_batch h A ts j :
  h !! A = Some (batch ts) → j < 6 → col A j h = inr (Vec (comp j <$> ts), h).
Proof.
  intros HA Hj. unfold col. erewrite bind_inr by by apply load_Some.
  by apply lift_inr, column_batch.
Qed.

Lemma set_col_batch h A ts j (v : list T) :
  h !! A = Some (batch ts) → j < 6 → length v = length ts →
  set_col A j (Vec v) h = inr (tt, <[A:=batch (zip_with (set_comp j) ts v)]> h).
Proof.
  intros HA Hj Hv. unfold set_col. erewrite bind_inr by by apply load_Some.
  by erewrite bind_inr by by apply lift_inr, set_column_batch.
Qed.

Lemma update_from_batch h V ts f :
  h !! V = Some (batch ts) →
  update_from V 3 f h = inr (tt, <[V:=batch (on_shear f <$> ts)]> h).
Proof.
  intros HV. unfold update_from. erewrite bind_inr by by apply load_Some.
  by erewrite bind_inr by apply lift_inr, map_from_batch.
Qed.

Lemma update_upto_batch h V ts f :
  h !! V = Some (batch ts) →
  update_upto V 3 f h = inr (tt, <[V:=batch (on_normal f <$> ts)]> h).
Proof.
  intros HV. unfold update_upto. erewrite bind_inr by by apply load_Some.
  by erewrite bind_inr by apply lift_inr, map_upto_batch.
Qed.

(** Elementwise arithmetic on operands that are rows of one batch. *)
Lemma binop_rows {Q} f (x y : M T (operand T)) h (g k : Q → T) (l : list Q) :
  x h = inr (Vec (g <$> l), h) → y h = inr (Vec (k <$> l), h) →
  binop f x y h = inr (Vec ((λ q, f (g q) (k q)) <$> l), h).
Proof.
  intros Hx Hy. unfold binop. erewrite bind_inr by done.
  erewrite bind_inr by done. apply lift_inr, broadcast_rows.
Qed.

Lemma binop_scalar_l {Q} f (x y : M T (operand T)) h c (k : Q → T) (l : list Q) :
  x h = inr (Sc c, h) → y h = inr (Vec (k <$> l), h) →
  binop f x y h = inr (Vec ((λ q, f c (k q)) <$> l), h).
Proof.
  intros Hx Hy. unfold binop. erewrite bind_inr by done.
  erewrite bind_inr by done. apply lift_inr, broadcast_scalar_l.
Qed.

Lemma binop_scalar_r {Q} f (x y : M T (operand T)) h (g : Q → T) c (l : list Q) :
  x h = inr (Vec (g <$> l), h) → y h = inr (Sc c, h) →
  binop f x y h = inr (Vec ((λ q, f (g q) c) <$> l), h).
Proof.
  intros Hx Hy. unfold binop. erewrite bind_inr by done.
  erewrite bind_inr by done. apply lift_inr, broadcast_scalar_r.
Qed.

(** One assignment of [tensor2]:
    [result[:, j] = A[:, i1]*A[:, i2] + A[:, i3]*A[:, i4] + A[:, i5]*A[:, i6]]. *)
Lemma tensor2_assignment h A result ts rs j i1 i2 i3 i4 i5 i6 :
  h !! A = Some (batch ts) → h !! result = Some (batch rs) →
  length rs = length ts →
  j < 6 → i1 < 6 → i2 < 6 → i3 < 6 → i4 < 6 → i5 < 6 → i6 < 6 →
  bind (binop sadd (binop sadd (binop smul (col A i1) (col A i2))
                               (binop smul (col A i3) (col A i4)))
                   (binop smul (col A i5) (col A i6)))
       (λ v, set_col result j v) h
  = inr (tt, <[result:=batch (zip_with (set_comp j) rs
                 ((λ t, sadd (sadd (smul (comp i1 t) (comp i2 t))
                                   (smul (comp i3 t) (comp i4 t)))
                             (smul (comp i5 t) (comp i6 t))) <$> ts))]> h).
Proof.
  intros HA Hr Hlen Hj ? ? ? ? ? ?.
  erewrite bind_inr.
  - apply set_col_batch; [done..|]. by rewrite length_fmap.
  - repeat apply binop_rows; by apply col_batch.
Qed.

Lemma length_zip_rows {A B C} (f : A → B → A) (rs : list A) (g : C → B) (l : list C) :
  length rs = length l → length (zip_with f rs (g <$> l)) = length l.
Proof. intros Hl. by rewrite length_zip_with_l_eq; rewrite ?length_fmap. Qed.

(** Six assignments, one per column, overwrite every cell of a row. *)
Lemma six_columns (F0 F1 F2 F3 F4 F5 : sym T → T) ts (us : list (sym T)) :
  length us = length ts →
  zip_with (set_comp 5)
    (zip_with (set_comp 4)
      (zip_with (set_comp 3)
        (zip_with (set_comp 2)
          (zip_with (set_comp 1)
            (zip_with (set_comp 0) us (F0 <$> ts))
            (F1 <$> ts))
          (F2 <$> ts))
        (F3 <$> ts))
      (F4 <$> ts))
    (F5 <$> ts)
  = (λ t, Sym (F0 t) (F1 t) (F2 t) (F3 t) (F4 t) (F5 t)) <$> ts.
Proof.
  revert us; induction ts as [|t ts IH]; intros [|u us] ?; simplify_eq/=; [done|].
  f_equal. by apply IH.
Qed.

(** [tensor2] on an array object holding a batch: the result is a new
    object, and nothing else changes. *)
Lemma tensor2_Ref h A ts :
  h !! A = Some (batch ts) →
  tensor2 uninit (Ref A) h
  = inr (fresh (dom h), <[fresh (dom h):=batch (self_product <$> ts)]> h).
Proof.
  intros HA. unfold tensor2.
  erewrite bind_inr by by eapply asarray_Ref.
  erewrite bind_inr by by eapply ndim_Some.
  erewrite bind_inr by done.
  erewrite bind_inr by by eapply shape_item_Some.
  erewrite bind_inr by done.
  erewrite bind_inr by by eapply np_empty_like_Some.
  destruct (empty_like_batch uninit ts) as (us & -> & Hus).
  set (r := fresh (dom h)).
  assert (A ≠ r) as HAr.
  { intros ->. pose proof (fresh_lookup h) as Hr. fold r in Hr. congruence. }
  cbv zeta beta iota.
  repeat (erewrite bind_inr by
    (apply tensor2_assignment with (ts:=ts);
      [by rewrite lookup_insert_ne|by rewrite lookup_insert_eq
      |by repeat apply length_zip_rows|lia..]);
    rewrite insert_insert_eq).
  unfold ret. do 3 f_equal. by rewrite six_columns.
Qed.

(** A nested sequence is first turned into a new array object; from there
    on the program runs as on that object. *)
Lemma asarray_Nested {B} (k : loc → M T B) a h :
  bind (asarray (Nested a)) k h
  = bind (asarray (Ref (fresh (dom h)))) k (<[fresh (dom h):=a]> h).
Proof.
  symmetry. erewrite bind_inr by (eapply asarray_Ref; apply lookup_insert_eq).
  done.
Qed.

Lemma returns_intro (m : M T loc) h h1 r a :
  m h = inr (r, <[r:=a]> h1) → h ⊆ h1 → h1 !! r = None → returns m h a.
Proof.
  intros Hm Hsub Hr. exists r, (<[r:=a]> h1). split_and!; [done| | |].
  - apply lookup_insert_eq.
  - destruct (h !! r) as [b|] eqn:Hb; [|done].
    eapply lookup_weaken in Hb; [|done]. congruence.
  - intros l0 a0 Hl0. rewrite lookup_insert_ne.
    + by eapply lookup_weaken.
    + intros ->. eapply lookup_weaken in Hl0; [|done]. congruence.
Qed.

(** A program returns one array. *)
Lemma returns_unique (m : M T loc) h a b :
  returns m h a → returns m h b → a = b.
Proof.
  intros (l & h1 & Hm & Ha & _) (l' & h1' & Hm' & Hb & _). congruence.
Qed.


(** Where a function starts with [np.asarray], its behaviour on any argument
    follows from its behaviour on array objects. *)
Lemma by_asarray {B} (k : loc → M T B) (o : pyobj T) h a
    (P : exn + B * heap T → Prop) :
  value h o = Some a →
  (∀ l h1, h1 !! l = Some a → h ⊆ h1 → P (bind (asarray (Ref l)) k h1)) →
  P (bind (asarray o) k h).
Proof.
  intros Ho HP. destruct o as [l|b]; simpl in Ho.
  - by apply HP.
  - simplify_eq. rewrite asarray_Nested. apply HP; [apply lookup_insert_eq|].
    apply insert_subseteq, fresh_lookup.
Qed.

Lemma tensor2_value o h ts :
  value h o = Some (batch ts) →
  ∃ r h1, tensor2 uninit o h = inr (r, <[r:=batch (self_product <$> ts)]> h1)
          ∧ h ⊆ h1 ∧ h1 !! r = None.
Proof.
  intros Ho. unfold tensor2.
  apply (by_asarray _ o h (batch ts)
    (λ res, ∃ r h1, res = inr (r, <[r:=batch (self_product <$> ts)]> h1)
                    ∧ h ⊆ h1 ∧ h1 !! r = None) Ho).
  intros l h1 Hl Hsub. exists (fresh (dom h1)), h1.
  split_and!; [|done|apply fresh_lookup].
  by apply tensor2_Ref.
Qed.

(** [green] on an array object holding a batch. *)
Lemma green_Ref h A ts :
  h !! A = Some (batch ts) →
  ∃ r h1, green uninit (Ref A) h = inr (r, <[r:=batch (green_steps <$> ts)]> h1)
          ∧ h ⊆ h1 ∧ h1 !! r = None.
Proof.
  intros HA. unfold green.
  erewrite bind_inr by by eapply asarray_Ref.
  erewrite bind_inr by by eapply ndim_Some.
  erewrite bind_inr by done.
  erewrite bind_inr by by eapply shape_item_Some.
  erewrite bind_inr by done.
  erewrite bind_inr by by eapply copy_Some.
  set (V := fresh (dom h)).
  erewrite bind_inr by (apply update_from_batch, lookup_insert_eq).
  rewrite insert_insert_eq.
  erewrite bind_inr by (apply update_upto_batch, lookup_insert_eq).
  rewrite insert_insert_eq.
  erewrite bind_inr by (apply tensor2_Ref, lookup_insert_eq).
  match goal with |- context [fresh ?d] => set (r := fresh d) end.
  erewrite bind_inr by (apply update_upto_batch, lookup_insert_eq).
  rewrite insert_insert_eq.
  erewrite bind_inr by (apply update_upto_batch, lookup_insert_eq).
  rewrite insert_insert_eq.
  eexists r, _. split_and!.
  - unfold ret. do 3 f_equal. rewrite <-!list_fmap_compose. done.
  - apply insert_subseteq, fresh_lookup.
  - apply fresh_lookup.
Qed.

Lemma green_value o h ts :
  value h o = Some (batch ts) →
  ∃ r h1, green uninit o h = inr (r, <[r:=batch (green_steps <$> ts)]> h1)
          ∧ h ⊆ h1 ∧ h1 !! r = None.
Proof.
  intros Ho. unfold green.
  apply (by_asarray _ o h (batch ts)
    (λ res, ∃ r h1, res = inr (r, <[r:=batch (green_steps <$> ts)]> h1)
                    ∧ h ⊆ h1 ∧ h1 !! r = None) Ho).
  intros l h1 Hl Hsub.
  destruct (green_Ref h1 l ts Hl) as (r & h2 & Hres & Hsub2 & Hr).
  exists r, h2. split_and!; [exact Hres| |done]. by etrans.
Qed.

(** Evaluation of an arithmetic expression over rows of one batch. *)
Ltac eval_operand :=
  lazymatch goal with
  | |- ret _ _ = _ => reflexivity
  | |- binop _ _ _ _ = _ =>
      first [ eapply binop_rows; eval_operand
            | eapply binop_scalar_l; eval_operand
            | eapply binop_scalar_r; eval_operand ]
  end.

(** [quat2matrix] on an array object holding a batch of quaternions. *)
Lemma quat2matrix_Ref h A (qs : list (quat T)) :
  h !! A = Some (quats qs) →
  quat2matrix (Ref A) h
  = inr (fresh (dom h), <[fresh (dom h):=mats (quat2matrix_row <$> qs)]> h).
Proof.
  intros HA. unfold quat2matrix.
  erewrite bind_inr by by eapply asarray_Ref.
  erewrite bind_inr by by eapply ndim_Some.
  erewrite bind_inr by done.
  erewrite bind_inr by by eapply shape_item_Some.
  erewrite bind_inr by done.
  erewrite bind_inr by by eapply load_Some.
  erewrite bind_inr by apply lift_inr, transpose_quats.
  erewrite bind_inr by apply lift_inr, (iter_rows_columns [qx; qy; qz; qw] qs).
  cbn [fmap list_fmap]. cbv zeta.
  do 9 (erewrite bind_inr by eval_operand).
  pose (R := @quat2matrix_row T _).
  erewrite bind_inr by exact (lift_inr _ _ _
    (stack_columns (λ q, m11 (R q))
       [λ q, m12 (R q); λ q, m13 (R q);
        λ q, m21 (R q); λ q, m22 (R q); λ q, m23 (R q);
        λ q, m31 (R q); λ q, m32 (R q); λ q, m33 (R q)] qs)).
  erewrite bind_inr by exact (lift_inr _ _ _
    (transpose_columns
       [λ q, m11 (R q); λ q, m12 (R q); λ q, m13 (R q);
        λ q, m21 (R q); λ q, m22 (R q); λ q, m23 (R q);
        λ q, m31 (R q); λ q, m32 (R q); λ q, m33 (R q)] qs)).
  erewrite bind_inr by exact (lift_inr _ _ _ (reshape_rows R qs)).
  done.
Qed.

Lemma quat2matrix_value o h (qs : list (quat T)) :
  value h o = Some (quats qs) →
  ∃ r h1, quat2matrix o h = inr (r, <[r:=mats (quat2matrix_row <$> qs)]> h1)
          ∧ h ⊆ h1 ∧ h1 !! r = None.
Proof.
  intros Ho. unfold quat2matrix.
  apply (by_asarray _ o h (quats qs)
    (λ res, ∃ r h1, res = inr (r, <[r:=mats (quat2matrix_row <$> qs)]> h1)
                    ∧ h ⊆ h1 ∧ h1 !! r = None) Ho).
  intros l h1 Hl Hsub. exists (fresh (dom h1)), h1.
  split_and!; [|done|apply fresh_lookup].
  by apply quat2matrix_Ref.
Qed.

(** The orientation branch of [calculateGE]: the block's own quaternions
    stay as they are; the matrices are those of the quaternions with the
    scalar component multiplied by -1. *)
Lemma calculateGE_localCoordSystem_Ref h A (qs : list (quat T)) :
  h !! A = Some (quats qs) →
  ∃ r h1, calculateGE_localCoordSystem A h
          = inr (r, <[r:=mats (quat2matrix_row <$> (negate_scalar <$> qs))]> h1)
          ∧ h ⊆ h1 ∧ h1 !! r = None.
Proof.
  intros HA. unfold calculateGE_localCoordSystem.
  erewrite bind_inr by by eapply copy_Some.
  set (V := fresh (dom h)).
  erewrite bind_inr; last first.
  { erewrite bind_inr.
    - unfold set_col. erewrite bind_inr by apply load_Some, lookup_insert_eq.
      erewrite bind_inr by apply lift_inr, set_column_scalar. reflexivity.
    - eapply binop_scalar_r; [|reflexivity].
      unfold col. erewrite bind_inr by apply load_Some, lookup_insert_eq.
      apply lift_inr, column_scalar. }
  rewrite insert_insert_eq.
  erewrite quat2matrix_Ref by apply lookup_insert_eq.
  eexists _, _. split_and!; [reflexivity| |apply fresh_lookup].
  apply insert_subseteq, fresh_lookup.
Qed.

(** The three functions and the orientation branch, as [returns] facts. *)
Lemma tensor2_returns o h ts :
  value h o = Some (batch ts) →
  returns (tensor2 uninit o) h (batch (self_product <$> ts)).
Proof.
  intros Ho. destruct (tensor2_value o h ts Ho) as (r & h1 & Hres & ? & ?).
  by eapply returns_intro.
Qed.

Lemma green_returns o h ts :
  value h o = Some (batch ts) →
  returns (green uninit o) h (batch (green_steps <$> ts)).
Proof.
  intros Ho. destruct (green_value o h ts Ho) as (r & h1 & Hres & ? & ?).
  by eapply returns_intro.
Qed.

Lemma quat2matrix_returns o h (qs : list (quat T)) :
  value h o = Some (quats qs) →
  returns (quat2matrix o) h (mats (quat2matrix_row <$> qs)).
Proof.
  intros Ho. destruct (quat2matrix_value o h qs Ho) as (r & h1 & Hres & ? & ?).
  by eapply returns_intro.
Qed.

Lemma calculateGE_localCoordSystem_returns h A (qs : list (quat T)) :
  h !! A = Some (quats qs) →
  returns (calculateGE_localCoordSystem A) h
    (mats (quat2matrix_row <$> (negate_scalar <$> qs))).
Proof.
  intros HA.
  destruct (calculateGE_localCoordSystem_Ref h A qs HA) as (r & h1 & Hres & ? & ?).
  by eapply returns_intro.
Qed.

End Exec.

(** ** Shape validation *)

Section Validation.
Context {T : Type} `{Scalar T}.
Implicit Types (h : heap T) (a : ndarray T).

(** The three functions open with the same checks: the argument is made an
    array, must have two dimensions, and its second extent must be [c]. *)
Lemma validation_fails {B} (k : loc → M T B) (c : nat) msg1 msg2 o h a :
  value h o = Some a →
  length (shape a) ≠ 2 ∨ shape a !! 1 ≠ Some c →
  fails_assertion
    (bind (asarray o) (λ A,
       bind (ndim A) (λ d,
         bind (py_assert (bool_decide (2 = d)) msg1) (λ _,
           bind (shape_item A 1) (λ c',
             bind (py_assert (bool_decide (c = c')) msg2) (λ _, k A)))))) h.
Proof.
  intros Ho Hbad. unfold fails_assertion.
  apply (by_asarray _ o h a (λ res, ∃ msg, res = inl (AssertionError msg)) Ho).
  intros l h1 Hl _.
  erewrite bind_inr by by eapply asarray_Ref.
  erewrite bind_inr by by eapply ndim_Some.
  destruct (decide (2 = length (shape a))) as [Hd|Hd].
  - rewrite bool_decide_eq_true_2 by done.
    erewrite bind_inr by done.
    destruct (shape a) as [|n [|m [|? ?]]] eqn:Hs; simplify_eq/=.
    erewrite bind_inr by (eapply shape_item_Some; [done|by rewrite Hs]).
    exists msg2. rewrite bool_decide_eq_false_2; [done|].
    intros ->. by destruct Hbad.
  - exists msg1. by rewrite bool_decide_eq_false_2.
Qed.

End Validation.

(** * The documented behaviour *)

Section Claims.
Context {T : Type} `{Scalar T}.
Variable uninit : nat → T.
Implicit Types (h : heap T) (o : pyobj T).

(** C1. For every batch NE of shape (N,6), [green] computes, row by row: the
    three shear components divided by 2, then 1 added to the three normal
    components, then the symmetric self-product, then 1 subtracted from the
    three normal components of the product and these divided by 2, the shear
    components of the product left as they are. *)
Theorem green_is_the_four_steps o h (NE : list (sym T)) :
  value h o = Some (batch NE) →
  returns (green uninit o) h (batch (green_steps <$> NE)).
Proof.
  apply green_returns.
Qed.

(** C2. For every batch A of shape (N,6), each row of [tensor2(A)] holds the
    six packed components of A·A given by the documented formulas. *)
Theorem tensor2_is_the_self_product o h (A : list (sym T)) :
  value h o = Some (batch A) →
  returns (tensor2 uninit o) h (batch (self_product <$> A)).
Proof.
  apply tensor2_returns.
Qed.

(** C9. For every batch A of shape (N,6), each row of [tensor2(A)] is the
    packing of the full 3×3 product M·M of the symmetric matrix M that the
    row unpacks to. *)
Theorem tensor2_refines_matrix_product o h (A : list (sym T)) :
  value h o = Some (batch A) →
  returns (tensor2 uninit o) h
    (batch ((λ row, pack_matrix (mmul (unpack row) (unpack row))) <$> A)).
Proof.
  intros Ho. by apply (tensor2_returns uninit o h A).
Qed.

(** C7. [tensor2] and [green] applied to an array that is not 2-dimensional
    or does not have 6 columns, and [quat2matrix] applied to an array that
    is not 2-dimensional or does not have 4 columns, end with an
    AssertionError and return nothing. *)
Theorem wrong_shape_is_rejected o h (a : ndarray T) :
  value h o = Some a →
  (length (shape a) ≠ 2 ∨ shape a !! 1 ≠ Some 6 →
     fails_assertion (tensor2 uninit o) h ∧ fails_assertion (green uninit o) h)
  ∧ (length (shape a) ≠ 2 ∨ shape a !! 1 ≠ Some 4 →
     fails_assertion (quat2matrix o) h).
Proof.
  intros Ho. split; [intros Hbad; split|intros Hbad].
  - by eapply validation_fails.
  - by eapply validation_fails.
  - by eapply validation_fails.
Qed.

(** C8. For every well-formed input of shape (N,6), the array [green]
    returns has the same shape (N,6), with N rows of 6 components. *)
Theorem green_preserves_shape o h (a : ndarray T) (N : nat) :
  value h o = Some a → well_formed a → shape a = [N; 6] →
  ∃ GE, returns (green uninit o) h GE ∧ shape GE = shape a ∧ well_formed GE.
Proof.
  intros Ho Hwf Hs. destruct (batch_repr a N Hwf Hs) as (NE & -> & HN).
  exists (batch (green_steps <$> NE)). split_and!.
  - by apply green_returns.
  - simpl. by rewrite length_fmap.
  - apply batch_well_formed.
Qed.

(** C10. [green] does not change its argument: after it returns, every array
    of the store, the argument among them, holds what it held before, and
    the array returned is another object. *)
Theorem green_leaves_its_argument o h (a : ndarray T) (N : nat) :
  value h o = Some a → well_formed a → shape a = [N; 6] →
  ∃ r h', green uninit o h = inr (r, h')
          ∧ value h' o = Some a
          ∧ o ≠ Ref r
          ∧ ∀ l0 a0, h !! l0 = Some a0 → h' !! l0 = Some a0.
Proof.
  intros Ho Hwf Hs. destruct (batch_repr a N Hwf Hs) as (NE & -> & HN).
  destruct (green_returns uninit o h NE Ho) as (r & h' & Hres & _ & Hfresh & Hframe).
  exists r, h'. split_and!; [done| | |done].
  - destruct o; simpl in *; auto.
  - intros ->. simpl in Ho. congruence.
Qed.

End Claims.

(** ** Quaternions, in exact arithmetic *)

Section Rotations.
Implicit Types (h : heap R) (o : pyobj R) (q : quat R).
Local Open Scope R_scope.

(** The expressions of the script are the standard formula, expanded. *)
Lemma quat2matrix_row_rotation q : quat2matrix_row q = rotation q.
Proof.
  unfold quat2matrix_row, rotation; cbn [lit sadd ssub smul reals].
  f_equal; ring.
Qed.

(** Multiplying the scalar component by -1 is negating it. *)
Lemma negate_scalar_conjugate q : negate_scalar q = conjugate q.
Proof.
  unfold negate_scalar, conjugate; cbn [lit smul reals]. f_equal. ring.
Qed.

Lemma rotation_conjugate q : rotation (conjugate q) = mtranspose (rotation q).
Proof.
  unfold rotation, conjugate, mtranspose;
    cbn [lit sadd ssub smul reals qx qy qz qw m11 m12 m13 m21 m22 m23 m31 m32 m33].
  f_equal; ring.
Qed.

Lemma rotation_orthogonal q :
  unit_quaternion q →
  mmul (mtranspose (rotation q)) (rotation q) = identity3
  ∧ mmul (rotation q) (mtranspose (rotation q)) = identity3.
Proof.
  destruct q as [x y z w]. unfold unit_quaternion; cbn [qx qy qz qw]. intros Hq.
  assert (w * w = 1 - x * x - y * y - z * z) as Hw by lra.
  unfold mmul, rotation, mtranspose, identity3;
    cbn [lit sadd ssub smul reals qx qy qz qw m11 m12 m13 m21 m22 m23 m31 m32 m33].
  split; f_equal; ring [Hw].
Qed.

Lemma quat2matrix_rows_rotation (qs : list (quat R)) :
  quat2matrix_row <$> qs = rotation <$> qs.
Proof. apply list_fmap_ext. intros _ q _. apply quat2matrix_row_rotation. Qed.

Lemma negate_scalar_rows (qs : list (quat R)) :
  negate_scalar <$> qs = conjugate <$> qs.
Proof. apply list_fmap_ext. intros _ q _. apply negate_scalar_conjugate. Qed.

Lemma conjugate_rows_rotation (qs : list (quat R)) :
  quat2matrix_row <$> (conjugate <$> qs) = (λ q, mtranspose (rotation q)) <$> qs.
Proof.
  rewrite <-list_fmap_compose. apply list_fmap_ext. intros _ q _. simpl.
  by rewrite quat2matrix_row_rotation, rotation_conjugate.
Qed.

(** In exact arithmetic the full product of a symmetric matrix with itself
    is symmetric: packing it loses nothing. *)
Lemma self_product_full_matrix (A : sym R) :
  mmul (unpack A) (unpack A) = unpack (self_product A).
Proof.
  destruct A. unfold mmul, unpack, self_product;
    cbn [sadd smul reals c11 c22 c33 c12 c13 c23
         m11 m12 m13 m21 m22 m23 m31 m32 m33].
  f_equal; ring.
Qed.

End Rotations.

(** ** Quaternions, in binary64

    Rounding is symmetric in the sign: negating an operand of a product
    negates the product, and subtracting a negated number is adding it.
    Multiplying by -1 is exact.  So negating the scalar component of a
    quaternion transposes the matrix of [quat2matrix] bit for bit. *)

Section SignSymmetry.
Variables prec emax : Z.

Lemma binary_round_aux_negb s m e l :
  binary_round_aux prec emax (negb s) m e l
  = SFopp (binary_round_aux prec emax s m e l).
Proof.
  unfold binary_round_aux.
  destruct (shr_fexp prec emax m e l) as [mrs' e'].
  destruct (shr_fexp prec emax _ e' loc_Exact) as [mrs'' e''].
  destruct (shr_m mrs''); try reflexivity.
  destruct (Z.leb e'' (emax - prec)); reflexivity.
Qed.

Lemma SFmul_opp_l x y :
  SFmul prec emax (SFopp x) y = SFopp (SFmul prec emax x y).
Proof.
  destruct x as [sx|sx| |sx mx ex], y as [sy|sy| |sy my ey]; simpl;
    try reflexivity; try (destruct sx, sy; reflexivity).
  rewrite <-binary_round_aux_negb. f_equal. destruct sx, sy; reflexivity.
Qed.

Lemma SFmul_opp_r x y :
  SFmul prec emax x (SFopp y) = SFopp (SFmul prec emax x y).
Proof.
  destruct x as [sx|sx| |sx mx ex], y as [sy|sy| |sy my ey]; simpl;
    try reflexivity; try (destruct sx, sy; reflexivity).
  rewrite <-binary_round_aux_negb. f_equal. destruct sx, sy; reflexivity.
Qed.

Lemma SFsub_opp_r x y : SFsub prec emax x (SFopp y) = SFadd prec emax x y.
Proof.
  destruct x as [sx|sx| |sx mx ex], y as [sy|sy| |sy my ey]; simpl;
    try reflexivity; try (destruct sx, sy; reflexivity);
    try (destruct sy; reflexivity).
Qed.

Lemma SFadd_opp_r x y : SFadd prec emax x (SFopp y) = SFsub prec emax x y.
Proof.
  destruct x as [sx|sx| |sx mx ex], y as [sy|sy| |sy my ey]; simpl;
    try reflexivity; try (destruct sx, sy; reflexivity);
    try (destruct sy; reflexivity).
Qed.

End SignSymmetry.

(** The mantissa of -1 is 2^52: a product with it has 52 more digits, all
    zero, and shifting them out again loses nothing. *)
Lemma digits2_pos_shift (m : positive) :
  Zpos (digits2_pos (4503599627370496 * m)) = (Zpos (digits2_pos m) + 52)%Z.
Proof. cbv [Pos.mul]. cbn [digits2_pos]. lia. Qed.

Lemma shr_shift (m : positive) :
  SpecFloat.iter_pos shr_1 52
    {| shr_m := Zpos (4503599627370496 * m); shr_r := false; shr_s := false |}
  = {| shr_m := Zpos m; shr_r := false; shr_s := false |}.
Proof. reflexivity. Qed.

Lemma SFmul_minus_one x :
  SpecFloat.valid_binary prec emax x = true →
  SFmul prec emax x (S754_finite true 4503599627370496 (-52)) = SFopp x.
Proof.
  destruct x as [s|s| |s m e]; try (intros _; destruct s; reflexivity);
    [intros _; reflexivity|].
  cbn [SpecFloat.valid_binary SFmul SFopp]. unfold bounded, canonical_mantissa.
  intros Hb. apply andb_prop in Hb as [Hc He]. apply Z.eqb_eq in Hc.
  rewrite Pos.mul_comm. unfold binary_round_aux, shr_fexp.
  cbn [Zdigits2 shr_record_of_loc]. rewrite digits2_pos_shift.
  replace (Z.pos (digits2_pos m) + 52 + (e + -52))%Z
    with (Z.pos (digits2_pos m) + e)%Z by lia.
  rewrite Hc. replace (e - (e + -52))%Z with 52%Z by lia.
  cbn [shr]. rewrite shr_shift.
  cbn [shr_m loc_of_shr_record round_nearest_even Zdigits2 shr_record_of_loc].
  replace (e + -52 + 52)%Z with e by lia.
  rewrite Hc, Z.sub_diag. cbn [shr shr_m]. rewrite He.
  destruct s; reflexivity.
Qed.

Section Rotations64.
Implicit Types (h : heap float) (o : pyobj float) (q : quat float).
Local Open Scope float_scope.

Lemma mul_opp_l (x y : float) : - x * y = - (x * y).
Proof.
  apply Prim2SF_inj. rewrite mul_spec, !opp_spec, mul_spec. apply SFmul_opp_l.
Qed.

Lemma mul_opp_r (x y : float) : x * - y = - (x * y).
Proof.
  apply Prim2SF_inj. rewrite mul_spec, !opp_spec, mul_spec. apply SFmul_opp_r.
Qed.

Lemma sub_opp_r (x y : float) : x - - y = x + y.
Proof.
  apply Prim2SF_inj. rewrite sub_spec, opp_spec, add_spec. apply SFsub_opp_r.
Qed.

Lemma add_opp_r (x y : float) : x + - y = x - y.
Proof.
  apply Prim2SF_inj. rewrite sub_spec, add_spec, opp_spec. apply SFadd_opp_r.
Qed.

Lemma mul_minus_one (x : float) : x * -1 = - x.
Proof.
  apply Prim2SF_inj. rewrite mul_spec, opp_spec.
  change (Prim2SF (-1)) with (S754_finite true 4503599627370496 (-52)).
  apply SFmul_minus_one, Prim2SF_valid.
Qed.

(** [quatArray[:, 3] *= -1] negates the scalar component. *)
Lemma negate_scalar_conjugate64 q : negate_scalar q = conjugate64 q.
Proof.
  unfold negate_scalar, conjugate64; cbn [lit smul float64]. f_equal.
  change (float64_lit (-1)) with (-1). apply mul_minus_one.
Qed.

Lemma quat2matrix_row_conjugate64 q :
  quat2matrix_row (conjugate64 q) = mtranspose (quat2matrix_row q).
Proof.
  unfold quat2matrix_row, conjugate64, mtranspose;
    cbn [sadd ssub smul float64 qx qy qz qw
         m11 m12 m13 m21 m22 m23 m31 m32 m33].
  rewrite !mul_opp_r, !mul_opp_l, !sub_opp_r, !add_opp_r. reflexivity.
Qed.

Lemma conjugate64_rows (qs : list (quat float)) :
  quat2matrix_row <$> (conjugate64 <$> qs)
  = (λ q, mtranspose (quat2matrix_row q)) <$> qs.
Proof.
  rewrite <-list_fmap_compose. apply list_fmap_ext. intros _ q _. simpl.
  apply quat2matrix_row_conjugate64.
Qed.

Lemma negate_scalar_rows64 (qs : list (quat float)) :
  negate_scalar <$> qs = conjugate64 <$> qs.
Proof. apply list_fmap_ext. intros _ q _. apply negate_scalar_conjugate64. Qed.

End Rotations64.



(** ** float64 *)

Section Float64.
Variable uninit : nat → float.
Implicit Types (h : heap float) (o : pyobj float).

Lemma zeros_batch N : zeros N 6 = batch (replicate N (Sym 0 0 0 0 0 0)%float).
Proof.
  unfold zeros, batch. rewrite length_replicate. f_equal.
  induction N as [|N IH]; [done|].
  cbn [replicate fmap list_fmap concat Nat.mul]. rewrite <-IH. done.
Qed.

(** C4. For the single row (1.0, 2.0, 3.0, 4.0, 5.0, 6.0), [green] returns
    the single row (6.625, 10.5, 15.125, 17.5, 21.0, 26.0). *)
Theorem green_example o h :
  value h o = Some (NdArray [1; 6] [1; 2; 3; 4; 5; 6]%float) →
  returns (green uninit o) h
    (NdArray [1; 6] [6.625; 10.5; 15.125; 17.5; 21; 26]%float).
Proof.
  intros Ho.
  assert (batch (green_steps <$> [Sym 1 2 3 4 5 6]%float)
          = NdArray [1; 6] [6.625; 10.5; 15.125; 17.5; 21; 26]%float) as <-
    by (vm_compute; reflexivity).
  by apply green_returns.
Qed.

(** C5. For every N, [green] of the all-zero batch of shape (N,6) returns
    the all-zero batch of shape (N,6). *)
Theorem green_of_zeros o h (N : nat) :
  value h o = Some (zeros N 6) →
  returns (green uninit o) h (zeros N 6).
Proof.
  rewrite zeros_batch. intros Ho.
  apply (green_returns uninit) in Ho.
  rewrite fmap_replicate in Ho.
  assert (green_steps (Sym 0 0 0 0 0 0)%float = (Sym 0 0 0 0 0 0)%float) as E
    by (vm_compute; reflexivity).
  by rewrite E in Ho.
Qed.

End Float64.

(** * Concrete runs

    Each statement above, applied to an input; and the script evaluated on
    the inputs of its doctests and on inputs of the wrong shape. *)

Lemma green_is_the_four_steps_witness :
  returns (green (λ _, 7%float) (Nested (batch [Sym 1 2 3 4 5 6]%float))) ∅
    (batch (green_steps <$> [Sym 1 2 3 4 5 6]%float)).
Proof. apply green_is_the_four_steps. reflexivity. Defined.

Lemma tensor2_is_the_self_product_witness :
  returns (tensor2 (λ _, 7%float) (Nested (batch [Sym 0.5 2 3 4 5 6]%float))) ∅
    (batch (self_product <$> [Sym 0.5 2 3 4 5 6]%float)).
Proof. apply tensor2_is_the_self_product. reflexivity. Defined.

Lemma tensor2_refines_matrix_product_witness :
  returns (tensor2 (λ _, 7%float) (Nested (batch [Sym 0.5 2 3 4 5 6]%float))) ∅
    (batch ((λ row, pack_matrix (mmul (unpack row) (unpack row)))
              <$> [Sym 0.5 2 3 4 5 6]%float)).
Proof. apply tensor2_refines_matrix_product. reflexivity. Defined.

Lemma wrong_shape_is_rejected_witness :
  (fails_assertion
     (tensor2 (λ _, 7%float) (Nested (NdArray [1; 5] [1; 2; 3; 4; 5]%float))) ∅
   ∧ fails_assertion
       (green (λ _, 7%float) (Nested (NdArray [1; 5] [1; 2; 3; 4; 5]%float))) ∅)
  ∧ fails_assertion
      (quat2matrix (Nested (NdArray [1; 5] [1; 2; 3; 4; 5]%float))) ∅.
Proof.
  destruct (wrong_shape_is_rejected (λ _, 7%float)
              (Nested (NdArray [1; 5] [1; 2; 3; 4; 5]%float)) ∅ _ eq_refl)
    as [Htensor Hquat].
  split; [apply Htensor|apply Hquat]; right; simpl; congruence.
Defined.

Lemma green_preserves_shape_witness :
  ∃ GE, returns (green (λ _, 7%float)
                   (Nested (NdArray [2; 6] [1; 2; 3; 4; 5; 6; 0; 0; 0; 0; 0; 0]%float))) ∅ GE
        ∧ shape GE = [2; 6] ∧ well_formed GE.
Proof.
  apply (green_preserves_shape (λ _, 7%float)
           (Nested (NdArray [2; 6] [1; 2; 3; 4; 5; 6; 0; 0; 0; 0; 0; 0]%float)) ∅
           (NdArray [2; 6] [1; 2; 3; 4; 5; 6; 0; 0; 0; 0; 0; 0]%float) 2);
    reflexivity.
Defined.

Lemma green_leaves_its_argument_witness :
  ∃ r h', green (λ _, 7%float) (Ref 0)
            {[ 0 := NdArray [1; 6] [1; 2; 3; 4; 5; 6]%float ]} = inr (r, h')
          ∧ value h' (Ref 0) = Some (NdArray [1; 6] [1; 2; 3; 4; 5; 6]%float)
          ∧ (Ref 0 : pyobj float) ≠ Ref r
          ∧ ∀ l0 a0, ({[ 0 := NdArray [1; 6] [1; 2; 3; 4; 5; 6]%float ]} : heap float) !! l0 = Some a0
                     → h' !! l0 = Some a0.
Proof.
  apply (green_leaves_its_argument (λ _, 7%float) (Ref 0)
           {[ 0 := NdArray [1; 6] [1; 2; 3; 4; 5; 6]%float ]}
           (NdArray [1; 6] [1; 2; 3; 4; 5; 6]%float) 1);
    reflexivity.
Defined.



#[warnings="-inexact-float"] Example quat2matrix_last_entry :
  m33 (quat2matrix_row example_quaternion) = 0.8999999999999999%float
  ∧ m33 (rotation example_quaternion) = 0.9%float.
Proof. split; vm_compute; reflexivity. Qed.



#[warnings="-inexact-float"] Example product_with_the_transpose_first_entry :
  m11 (mmul (mtranspose (quat2matrix_row example_unit_quaternion64))
         (quat2matrix_row example_unit_quaternion64))
  = 0.9999999999999999%float.
Proof. vm_compute. reflexivity. Qed.

Lemma green_example_witness :
  returns (green (λ _, 7%float) (Nested (NdArray [1; 6] [1; 2; 3; 4; 5; 6]%float))) ∅
    (NdArray [1; 6] [6.625; 10.5; 15.125; 17.5; 21; 26]%float).
Proof. apply green_example. reflexivity. Defined.

Lemma green_of_zeros_witness :
  returns (green (λ _, 7%float) (Nested (zeros 3 6))) ∅ (zeros 3 6).
Proof. apply green_of_zeros. reflexivity. Defined.

(** The script, evaluated. *)

Example green_doctest_first_row :
  result_of (green (λ _, 7%float) (Nested (NdArray [1; 6] [1; 2; 3; 4; 5; 6]%float))) ∅
  = inr (NdArray [1; 6] [6.625; 10.5; 15.125; 17.5; 21; 26]%float).
Proof. vm_compute. reflexivity. Qed.

Example quat2matrix_doctest_identity :
  result_of (quat2matrix (Nested (NdArray [1; 4] [0; 0; 0; 1]%float))) ∅
  = inr (NdArray [1; 3; 3] [1; 0; 0; 0; 1; 0; 0; 0; 1]%float).
Proof. vm_compute. reflexivity. Qed.

Example quat2matrix_empty_batch :
  result_of (quat2matrix (Nested (NdArray [0; 4] ([] : list float)))) ∅
  = inr (NdArray [0; 3; 3] []).
Proof. vm_compute. reflexivity. Qed.

Example tensor2_five_columns :
  result_of (tensor2 (λ _, 7%float) (Nested (NdArray [1; 5] [1; 2; 3; 4; 5]%float))) ∅
  = inl (AssertionError "Data elements must be in Abaqus symmetric tensor format").
Proof. vm_compute. reflexivity. Qed.

Example tensor2_seven_columns :
  result_of (tensor2 (λ _, 7%float) (Nested (NdArray [1; 7] [1; 2; 3; 4; 5; 6; 7]%float))) ∅
  = inl (AssertionError "Data elements must be in Abaqus symmetric tensor format").
Proof. vm_compute. reflexivity. Qed.

Example tensor2_one_dimension :
  result_of (tensor2 (λ _, 7%float) (Nested (NdArray [6] [1; 2; 3; 4; 5; 6]%float))) ∅
  = inl (AssertionError "Data must be a 2D array of tensors").
Proof. vm_compute. reflexivity. Qed.

Example green_seven_columns :
  result_of (green (λ _, 7%float) (Nested (NdArray [1; 7] [1; 2; 3; 4; 5; 6; 7]%float))) ∅
  = inl (AssertionError "NEarray elements must be in Abaqus symmetric tensor format").
Proof. vm_compute. reflexivity. Qed.

Example quat2matrix_three_columns :
  result_of (quat2matrix (Nested (NdArray [1; 3] [0; 0; 1]%float))) ∅
  = inl (AssertionError "Must be an array of quaternions").
Proof. vm_compute. reflexivity. Qed.

Example quat2matrix_five_columns :
  result_of (quat2matrix (Nested (NdArray [1; 5] [0; 0; 0; 1; 0]%float))) ∅
  = inl (AssertionError "Must be an array of quaternions").
Proof. vm_compute. reflexivity. Qed.

(** A quaternion that is not of unit length is converted all the same, and
    the matrix is not orthonormal. *)
Example rotation_of_non_unit_quaternion :
  rotation (Quat 1 0 0 1)%R = (Mat3 1 0 0 0 (-1) (-2) 0 2 (-1))%R
  ∧ mmul (mtranspose (rotation (Quat 1 0 0 1)%R)) (rotation (Quat 1 0 0 1)%R)
    ≠ identity3.
Proof.
  split.
  - unfold rotation; cbn [lit sadd ssub smul reals qx qy qz qw]. f_equal; lra.
  - intros Heq. apply (f_equal m22) in Heq. revert Heq.
    unfold mmul, mtranspose, rotation, identity3;
      cbn [lit sadd ssub smul reals qx qy qz qw m11 m12 m13 m21 m22 m23 m31 m32 m33].
    lra.
Qed.

(** * Beyond the documentation

    Properties the script itself shows: of the array functions first, then
    of the functions that drive them over a database. *)

Section MoreOnArrays.
Context {T : Type} `{Scalar T}.
Implicit Types (h : heap T) (o : pyobj T) (a : ndarray T).

Lemma mats_well_formed (ms : list (mat3 T)) : well_formed (mats ms).
Proof.
  unfold well_formed, mats; simpl.
  rewrite (length_concat_rows 9), length_fmap; [lia|].
  by apply Forall_fmap, Forall_true.
Qed.

Lemma returns_result_of (m : M T loc) h a :
  returns m h a → result_of m h = inr a.
Proof.
  intros (r & h' & Hm & Hr & _). unfold result_of. by rewrite Hm, Hr.
Qed.

(** The checks shared by the three functions, with the message each gives. *)
Lemma validation_message {B} (k : loc → M T B) (c : nat) msg1 msg2 o h a :
  value h o = Some a →
  let program :=
    bind (asarray o) (λ A,
      bind (ndim A) (λ d,
        bind (py_assert (bool_decide (2 = d)) msg1) (λ _,
          bind (shape_item A 1) (λ c',
            bind (py_assert (bool_decide (c = c')) msg2) (λ _, k A))))) in
  (length (shape a) ≠ 2 → program h = inl (AssertionError msg1))
  ∧ (length (shape a) = 2 → shape a !! 1 ≠ Some c →
     program h = inl (AssertionError msg2)).
Proof.
  intros Ho program. subst program. split.
  - intros Hd.
    apply (by_asarray _ o h a (λ res, res = inl (AssertionError msg1)) Ho).
    intros l h1 Hl _.
    erewrite bind_inr by by eapply asarray_Ref.
    erewrite bind_inr by by eapply ndim_Some.
    by rewrite bool_decide_eq_false_2.
  - intros Hd Hc.
    apply (by_asarray _ o h a (λ res, res = inl (AssertionError msg2)) Ho).
    intros l h1 Hl _.
    erewrite bind_inr by by eapply asarray_Ref.
    erewrite bind_inr by by eapply ndim_Some.
    rewrite bool_decide_eq_true_2 by done.
    erewrite bind_inr by done.
    destruct (shape a) as [|n [|m [|? ?]]] eqn:Hs; simplify_eq/=.
    erewrite bind_inr by (eapply shape_item_Some; [done|by rewrite Hs]).
    rewrite bool_decide_eq_false_2; [done|]. by intros ->.
Qed.

Variable uninit : nat → T.

(** X1. [tensor2] does not change its argument either: on a well-formed
    (N,6) array it returns another object, of the same shape, and every
    array of the store holds what it held. *)
Theorem tensor2_leaves_its_argument o h a (N : nat) :
  value h o = Some a → well_formed a → shape a = [N; 6] →
  ∃ r h' AA, tensor2 uninit o h = inr (r, h')
             ∧ h' !! r = Some AA ∧ shape AA = shape a ∧ well_formed AA
             ∧ value h' o = Some a
             ∧ o ≠ Ref r
             ∧ ∀ l0 a0, h !! l0 = Some a0 → h' !! l0 = Some a0.
Proof.
  intros Ho Hwf Hs. destruct (batch_repr a N Hwf Hs) as (ts & -> & HN).
  destruct (tensor2_returns uninit o h ts Ho) as (r & h' & Hres & Hr & Hfresh & Hframe).
  exists r, h', (batch (self_product <$> ts)). split_and!; [done..| | | | |done].
  - simpl. by rewrite length_fmap.
  - apply batch_well_formed.
  - destruct o; simpl in *; auto.
  - intros ->. simpl in Ho. congruence.
Qed.

(** X2. On a well-formed (N,4) array [quat2matrix] returns a new well-formed
    array of shape (N,3,3), N = 0 included, and changes no array of the
    store. *)
Theorem quat2matrix_shape o h a (N : nat) :
  value h o = Some a → well_formed a → shape a = [N; 4] →
  ∃ matrices, returns (quat2matrix o) h matrices
              ∧ shape matrices = [N; 3; 3] ∧ well_formed matrices.
Proof.
  intros Ho Hwf Hs. destruct (quats_repr a N Hwf Hs) as (qs & -> & HN).
  exists (mats (quat2matrix_row <$> qs)). split_and!.
  - by apply quat2matrix_returns.
  - simpl. by rewrite length_fmap, HN.
  - apply mats_well_formed.
Qed.

(** X3. [tensor2] names the check that failed: an array that is not 2-D
    gives "Data must be a 2D array of tensors", a 2-D array without exactly
    6 columns gives "Data elements must be in Abaqus symmetric tensor
    format". *)
Theorem tensor2_error_messages o h a :
  value h o = Some a →
  (length (shape a) ≠ 2 →
     tensor2 uninit o h = inl (AssertionError "Data must be a 2D array of tensors"))
  ∧ (length (shape a) = 2 → shape a !! 1 ≠ Some 6 →
     tensor2 uninit o h
     = inl (AssertionError "Data elements must be in Abaqus symmetric tensor format")).
Proof. intros Ho. by eapply validation_message. Qed.

(** X4. [green] checks its argument itself, before it copies anything, and
    reports in its own words: the checks of [tensor2] inside it never
    fail. *)
Theorem green_error_messages o h a :
  value h o = Some a →
  (length (shape a) ≠ 2 →
     green uninit o h = inl (AssertionError "NEarray must be a 2D array of tensors"))
  ∧ (length (shape a) = 2 → shape a !! 1 ≠ Some 6 →
     green uninit o h
     = inl (AssertionError "NEarray elements must be in Abaqus symmetric tensor format")).
Proof. intros Ho. by eapply validation_message. Qed.

(** X5. [quat2matrix] names the check that failed: "Must be a 2D array" or
    "Must be an array of quaternions". *)
Theorem quat2matrix_error_messages o h a :
  value h o = Some a →
  (length (shape a) ≠ 2 →
     quat2matrix o h = inl (AssertionError "Must be a 2D array"))
  ∧ (length (shape a) = 2 → shape a !! 1 ≠ Some 4 →
     quat2matrix o h = inl (AssertionError "Must be an array of quaternions")).
Proof. intros Ho. by eapply validation_message. Qed.

(** X6. What [np.empty_like] leaves in the result buffer never reaches the
    output: on a well-formed (N,6) array [green] returns the same array
    whatever the uninitialised memory holds. *)
Theorem green_ignores_uninitialised_memory (uninit' : nat → T) o h a (N : nat) :
  value h o = Some a → well_formed a → shape a = [N; 6] →
  ∃ GE, result_of (green uninit o) h = inr GE
        ∧ result_of (green uninit' o) h = inr GE.
Proof.
  intros Ho Hwf Hs. destruct (batch_repr a N Hwf Hs) as (ts & -> & HN).
  exists (batch (green_steps <$> ts)).
  split; by apply returns_result_of, green_returns.
Qed.

End MoreOnArrays.

Section MoreOnRotations.
Implicit Types (h : heap R) (o : pyobj R) (q : quat R).
Local Open Scope R_scope.

Lemma green_steps_docstring (NE : sym R) :
  green_steps NE = engineering (green_tensor NE).
Proof.
  destruct NE as [e11 e22 e33 e12 e13 e23].
  cbv [green_steps engineering green_tensor stretch nominal_tensor
       halve_normals subtract_identity self_product add_identity
       shear_to_tensor on_normal on_shear mhalf msub madd mmul unpack
       identity3 lit sadd ssub smul sdiv reals c11 c22 c33 c12 c13 c23
       m11 m12 m13 m21 m22 m23 m31 m32 m33].
  f_equal; field.
Qed.

Lemma green_tensor_second_order (NE : sym R) :
  green_tensor NE
  = madd (nominal_tensor NE)
         (mhalf (mmul (nominal_tensor NE) (nominal_tensor NE))).
Proof.
  destruct NE as [e11 e22 e33 e12 e13 e23].
  cbv [green_tensor stretch nominal_tensor shear_to_tensor on_shear mhalf
       msub madd mmul unpack identity3 lit sadd ssub smul sdiv reals
       c11 c22 c33 c12 c13 c23 m11 m12 m13 m21 m22 m23 m31 m32 m33].
  f_equal; field.
Qed.

Lemma rotation_negate q : rotation (negate q) = rotation q.
Proof.
  cbv [rotation negate lit sadd ssub smul reals qx qy qz qw]. f_equal; ring.
Qed.

Lemma rotation_det q : unit_quaternion q → det3 (rotation q) = 1.
Proof.
  destruct q as [x y z w]. unfold unit_quaternion; cbn [qx qy qz qw]. intros Hq.
  assert (w * w = 1 - x * x - y * y - z * z) as Hw by lra.
  cbv [det3 rotation lit sadd ssub smul reals qx qy qz qw
       m11 m12 m13 m21 m22 m23 m31 m32 m33].
  ring [Hw].
Qed.

Variable uninit : nat → R.

(** X7. In exact arithmetic [green] computes the relations of the module's
    docstring: with NE read as a tensor (shear halved) and V = NE + I, each
    output row is GE = 1/2(V*V - I), written in the packed format with
    engineering shear. *)
Theorem green_is_the_docstring_formula o h (NE : list (sym R)) :
  value h o = Some (batch NE) →
  returns (green uninit o) h
    (batch ((λ row, engineering (green_tensor row)) <$> NE)).
Proof.
  intros Ho.
  rewrite <-(list_fmap_ext green_steps (λ row, engineering (green_tensor row)) NE);
    [by apply green_returns|].
  intros _ row _. apply green_steps_docstring.
Qed.

(** X8. In exact arithmetic Green strain is Nominal strain plus a
    second-order term: each output row is the engineering form of
    NE + 1/2 NE*NE, NE read as a tensor. *)
Theorem green_is_nominal_plus_second_order o h (NE : list (sym R)) :
  value h o = Some (batch NE) →
  returns (green uninit o) h
    (batch ((λ row, engineering
                      (madd (nominal_tensor row)
                         (mhalf (mmul (nominal_tensor row) (nominal_tensor row)))))
            <$> NE)).
Proof.
  intros Ho.
  rewrite <-(list_fmap_ext green_steps
               (λ row, engineering
                         (madd (nominal_tensor row)
                            (mhalf (mmul (nominal_tensor row) (nominal_tensor row)))))
               NE); [by apply green_returns|].
  intros _ row _. by rewrite green_steps_docstring, green_tensor_second_order.
Qed.

(** X9. In exact arithmetic a quaternion and its negative (all four
    components negated) give the same matrix. *)
Theorem quat2matrix_of_negated_quaternions o o' h (qs : list (quat R)) :
  value h o = Some (quats qs) →
  value h o' = Some (quats (negate <$> qs)) →
  ∃ matrices, returns (quat2matrix o) h matrices
              ∧ returns (quat2matrix o') h matrices.
Proof.
  intros Ho Ho'. exists (mats (rotation <$> qs)). split.
  - rewrite <-quat2matrix_rows_rotation. by apply quat2matrix_returns.
  - apply quat2matrix_returns in Ho'.
    rewrite quat2matrix_rows_rotation, <-list_fmap_compose in Ho'.
    erewrite list_fmap_ext in Ho'; [exact Ho'|].
    intros _ q _. simpl. apply rotation_negate.
Qed.

(** X10. In exact arithmetic the matrix [quat2matrix] returns for a unit
    quaternion has determinant 1: it is a rotation, not a reflection. *)
Theorem quat2matrix_determinant o h (qs : list (quat R)) :
  Forall unit_quaternion qs →
  value h o = Some (quats qs) →
  ∃ ms, returns (quat2matrix o) h (mats ms)
        ∧ length ms = length qs
        ∧ Forall (λ m, det3 m = 1) ms.
Proof.
  intros Hunit Ho. exists (rotation <$> qs). split_and!.
  - rewrite <-quat2matrix_rows_rotation. by apply quat2matrix_returns.
  - by rewrite length_fmap.
  - apply Forall_fmap. eapply Forall_impl; [exact Hunit|].
    intros q. apply rotation_det.
Qed.

End MoreOnRotations.

Section OrientationBranch.
Context {T : Type} `{Scalar T}.
Implicit Types (h : heap T) (a : ndarray T).

Lemma column_well_formed a n m j :
  well_formed a → shape a = [n; m] → j < m →
  ∃ c, column j a = inr (Vec c) ∧ length c = n.
Proof.
  destruct a as [s d]; unfold well_formed; simpl; intros Hd -> Hj. simpl in Hd.
  unfold column; cbn [shape data]. rewrite decide_True by done.
  destruct (mapM (λ r : list T, r !! j) (chunks n m d)) as [c|] eqn:Hc.
  - exists c. split; [done|].
    apply length_mapM in Hc. by rewrite <-Hc, length_chunks.
  - apply mapM_None_1, Exists_exists in Hc as (r & Hr & Hnone).
    assert (Forall (λ r, length r = m) (chunks n m d)) as Hrows
      by (apply chunks_rows; lia).
    rewrite Forall_forall in Hrows. apply Hrows in Hr.
    apply lookup_ge_None in Hnone. lia.
Qed.

(** X11. The orientation branch of [calculateGE] indexes column 3 before
    [quat2matrix] checks anything: on a 2-D array with fewer than 4 columns
    it ends with IndexError, and on a well-formed one with more than 4 with
    the AssertionError "Must be an array of quaternions". *)
Theorem orientation_branch_wrong_columns h A a (n m : nat) :
  h !! A = Some a → shape a = [n; m] →
  (m < 4 → calculateGE_localCoordSystem A h = inl IndexError)
  ∧ (well_formed a → 4 < m →
     calculateGE_localCoordSystem A h
     = inl (AssertionError "Must be an array of quaternions")).
Proof.
  intros HA Hs. unfold calculateGE_localCoordSystem. split.
  - intros Hm. erewrite bind_inr by by eapply copy_Some.
    apply bind_inl. apply bind_inl. unfold binop. apply bind_inl.
    unfold col. erewrite bind_inr by apply load_Some, lookup_insert_eq.
    unfold column. rewrite Hs, decide_False by lia. done.
  - intros Hwf Hm. erewrite bind_inr by by eapply copy_Some.
    destruct (column_well_formed a n m 3 Hwf Hs) as (c & Hc & Hlen); [lia|].
    set (V := fresh (dom h)).
    assert (binop smul (col V 3) (ret (Sc (lit (-1)))) (<[V:=a]> h)
            = inr (Vec ((λ x, smul x (lit (-1))) <$> c), <[V:=a]> h)) as Hexpr.
    { unfold binop. erewrite bind_inr; last first.
      { unfold col. erewrite bind_inr by apply load_Some, lookup_insert_eq.
        apply lift_inr, Hc. }
      by erewrite bind_inr by reflexivity. }
    erewrite bind_inr; last first.
    { erewrite bind_inr by exact Hexpr.
      unfold set_col. erewrite bind_inr by apply load_Some, lookup_insert_eq.
      unfold set_column. rewrite Hs, decide_True by lia.
      rewrite decide_True by by rewrite length_fmap.
      by erewrite bind_inr by reflexivity. }
    rewrite insert_insert_eq.
    match goal with
    | |- quat2matrix (Ref ?V) (<[?V:=?b]> h) = _ =>
        eapply (validation_message _ 4 _ _ (Ref V) (<[V:=b]> h) b)
    end.
    + apply lookup_insert_eq.
    + done.
    + simpl. intros [= ->]. lia.
Qed.

End OrientationBranch.

(** ** Running programs that make calls *)

Section OdbExec.
Context {T : Type} `{Scalar T} {obj : Type}.
Variable uninit : nat → T.
Variable nonzero : T → bool.
Variable truth : obj → bool.
Variable enableLocalCoordSystem : bool.
Variable openOdb : string → string + odb obj.
Implicit Types (h : heap T) (t : list (call T obj)).

Lemma io_bind_inr {A B} (m : IO T obj A) (k : A → IO T obj B) h t x h' t' r :
  m h = (t, inr (x, h')) → k x h' = (t', r) → io_bind m k h = (t ++ t', r).
Proof. unfold io_bind. by intros -> ->. Qed.

Lemma io_bind_inl {A B} (m : IO T obj A) (k : A → IO T obj B) h t e :
  m h = (t, inl e) → io_bind m k h = (t, inl e).
Proof. unfold io_bind. by intros ->. Qed.

Lemma io_bind_ret {A B} (x : A) (k : A → IO T obj B) h :
  io_bind (io_ret x) k h = k x h.
Proof. unfold io_bind, io_ret. by destruct (k x h). Qed.

Lemma io_bind_assoc {A B C} (m : IO T obj A) (k1 : A → IO T obj B)
    (k2 : B → IO T obj C) h :
  io_bind (io_bind m k1) k2 h = io_bind m (λ x, io_bind (k1 x) k2) h.
Proof.
  unfold io_bind. destruct (m h) as [t [e|[x h']]]; [done|].
  destruct (k1 x h') as [t' [e|[y h'']]]; [done|].
  destruct (k2 y h'') as [t'' r]. by rewrite app_assoc.
Qed.

Lemma io_bind_emit {B} (c : call T obj) (k : unit → IO T obj B) h :
  io_bind (emit c) k h = (c :: fst (k tt h), snd (k tt h)).
Proof. unfold io_bind, emit. by destruct (k tt h). Qed.

Lemma run_inr {A} (m : M T A) h x h' :
  m h = inr (x, h') → run (obj:=obj) m h = ([], inr (x, h')).
Proof. unfold run. by intros ->. Qed.

Lemma run_inl {A} (m : M T A) h e :
  m h = inl e → run (obj:=obj) m h = ([], inl (Raised e)).
Proof. unfold run. by intros ->. Qed.

Lemma io_bind_run_inr {A B} (m : M T A) (k : A → IO T obj B) h x h' :
  m h = inr (x, h') → io_bind (run m) k h = k x h'.
Proof.
  intros Hm. unfold io_bind. rewrite (run_inr _ _ _ _ Hm). by destruct (k x h').
Qed.

Lemma io_bind_run_inl {A B} (m : M T A) (k : A → IO T obj B) h e :
  m h = inl e → io_bind (run m) k h = ([], inl (Raised e)).
Proof. intros Hm. apply io_bind_inl. by apply run_inl. Qed.

Lemma finally_emit {A} (body : IO T obj A) (c : call T obj) h :
  finally body (emit c) h = (fst (body h) ++ [c], snd (body h)).
Proof. unfold finally, emit. by destruct (body h) as [t [e|[x h']]]. Qed.

Lemma for_each_nothing {X} (l : list X) (body : X → IO T obj unit) h :
  Forall (λ x, ∀ h', body x h' = ([], inr (tt, h'))) l →
  for_each l body h = ([], inr (tt, h)).
Proof.
  induction 1 as [|x l Hx _ IH]; [done|]. cbn [for_each].
  by rewrite (io_bind_inr _ _ _ _ _ _ _ _ (Hx h) IH).
Qed.

Lemma for_each_app {X} (l1 l2 : list X) (body : X → IO T obj unit) h t1 h1 :
  for_each l1 body h = (t1, inr (tt, h1)) →
  for_each (l1 ++ l2) body h
  = (t1 ++ fst (for_each l2 body h1), snd (for_each l2 body h1)).
Proof.
  revert h t1. induction l1 as [|x l1 IH]; intros h t1 Hl1; simpl in *.
  - unfold io_ret in Hl1. simplify_eq. by destruct (for_each l2 body _).
  - unfold io_bind in *. destruct (body x h) as [t [e|[[] h']]]; [done|].
    destruct (for_each l1 body h') as [t' r] eqn:E. simplify_eq.
    rewrite (IH h' t' E). simpl. by rewrite app_assoc.
Qed.

Lemma for_each_inl {X} (l1 l2 : list X) (x : X) (body : X → IO T obj unit) h t1 h1 t e :
  for_each l1 body h = (t1, inr (tt, h1)) →
  body x h1 = (t, inl e) →
  for_each (l1 ++ x :: l2) body h = (t1 ++ t, inl e).
Proof.
  intros Hl1 Hx. rewrite (for_each_app _ _ _ _ _ _ Hl1). simpl.
  by rewrite (io_bind_inl _ _ _ _ _ Hx).
Qed.

(** A property of every call of the body is one of every call of the
    loop. *)
Lemma for_each_Forall {X} (P : call T obj → Prop) (l : list X) (body : X → IO T obj unit) h :
  (∀ x h', Forall P (fst (body x h'))) → Forall P (fst (for_each l body h)).
Proof.
  intros Hbody. revert h. induction l as [|x l IH]; intros h; simpl; [done|].
  unfold io_bind. specialize (Hbody x h).
  destruct (body x h) as [t [e|[[] h']]]; [done|].
  specialize (IH h'). destruct (for_each l body h') as [t' r].
  simpl in *. by apply Forall_app.
Qed.

Lemma created_in_app t t' :
  created_in (t ++ t') = created_in t ++ created_in t'.
Proof. apply omap_app. Qed.

(** The fields a loop creates when it ends well are those its turns
    create. *)
Lemma for_each_created {X} (g : X → list (frame obj)) (l : list X)
    (body : X → IO T obj unit) h t r :
  (∀ x h' t' r', body x h' = (t', inr r') → created_in t' = g x) →
  for_each l body h = (t, inr r) →
  created_in t = l ≫= g.
Proof.
  intros Hbody. revert h t. induction l as [|x l IH]; intros h t; simpl.
  - unfold io_ret. by intros [= <- <-].
  - unfold io_bind. destruct (body x h) as [t1 [e|[[] h']]] eqn:Hx; [done|].
    destruct (for_each l body h') as [t2 r2] eqn:Hl. intros [= <- ->].
    rewrite created_in_app. f_equal; [by eapply Hbody|by eapply IH].
Qed.

Lemma holds_weaken h h' (b : block_rows T obj) : holds h b → h ⊆ h' → holds h' b.
Proof.
  intros [Hd Hq] Hsub. split; [by eapply lookup_weaken|].
  destruct (localCoordSystem (the_block b)), (quaternion_rows b); try done.
  by eapply lookup_weaken.
Qed.

(** One block whose arrays hold a batch of tensors and, if oriented, a
    batch of quaternions: one [addData] call, and the store only grows. *)
Lemma calculateGE_block_calls (fr : frame obj) (b : block_rows T obj) h :
  holds h b →
  ∃ h', calculateGE_block uninit nonzero truth enableLocalCoordSystem fr (the_block b) h
        = ([addData_call fr "GE" (GE_options nonzero truth enableLocalCoordSystem b)],
           inr (tt, h'))
        ∧ h ⊆ h'.
Proof.
  intros [Hd Hq]. unfold calculateGE_block.
  destruct (green_Ref uninit h _ _ Hd) as (r & h1 & Hgreen & Hsub1 & Hr).
  rewrite (io_bind_run_inr _ _ _ _ _ Hgreen).
  set (h2 := <[r:=batch (green_steps <$> NE_rows b)]> h1).
  assert (h ⊆ h2) as Hsub2 by (etrans; [done|by apply insert_subseteq]).
  assert (h2 !! r = Some (batch (green_steps <$> NE_rows b))) as Hr2
    by apply lookup_insert_eq.
  unfold GE_options.
  destruct (localCoordSystem (the_block b)) as [l|] eqn:Hl,
           (quaternion_rows b) as [qs|] eqn:Hqs; try done.
  - assert (h2 !! l = Some (quats qs)) as Hl2 by by eapply lookup_weaken.
    assert (np_any nonzero (Some l) h2
            = inr (existsb nonzero (data (quats qs)), h2)) as Hany.
    { unfold np_any. by erewrite bind_inr by by apply load_Some. }
    destruct enableLocalCoordSystem; cbn [andb].
    + rewrite (io_bind_run_inr _ _ _ _ _ Hany).
      destruct (existsb nonzero (data (quats qs))).
      * destruct (calculateGE_localCoordSystem_Ref h2 l qs Hl2)
          as (m & h3 & Hm & Hsub3 & Hm3).
        rewrite io_bind_assoc, (io_bind_run_inr _ _ _ _ _ Hm), !io_bind_ret.
        unfold addData.
        erewrite io_bind_run_inr; last first.
        { apply load_Some. rewrite lookup_insert_ne.
          - by eapply lookup_weaken.
          - intros ->. eapply lookup_weaken in Hr2; [|done]. congruence. }
        rewrite io_bind_assoc.
        erewrite io_bind_run_inr by apply load_Some, lookup_insert_eq.
        rewrite !io_bind_ret. eexists. split; [reflexivity|].
        etrans; [done|]. etrans; [done|]. by apply insert_subseteq.
      * rewrite !io_bind_ret. unfold addData.
        erewrite io_bind_run_inr by by apply load_Some.
        rewrite !io_bind_ret. by eexists.
    + rewrite !io_bind_ret. unfold addData.
      erewrite io_bind_run_inr by by apply load_Some.
      rewrite !io_bind_ret. by eexists.
  - assert (∀ k : bool → IO T obj unit,
              io_bind (if enableLocalCoordSystem
                       then run (np_any nonzero (None : option loc))
                       else io_ret false) k h2 = k false h2) as ->.
    { intros k. destruct enableLocalCoordSystem; [|apply io_bind_ret].
      by apply io_bind_run_inr. }
    rewrite !io_bind_ret. unfold addData.
    erewrite io_bind_run_inr by by apply load_Some.
    rewrite !io_bind_ret. by eexists.
Qed.

Lemma calculateGE_blocks_calls (fr : frame obj) (bs : list (block_rows T obj)) h :
  Forall (holds h) bs →
  ∃ h', for_each (the_block <$> bs)
          (calculateGE_block uninit nonzero truth enableLocalCoordSystem fr) h
        = (GE_call nonzero truth enableLocalCoordSystem fr <$> bs, inr (tt, h'))
        ∧ h ⊆ h'.
Proof.
  revert h. induction bs as [|b bs IH]; intros h Hbs.
  - by exists h.
  - apply Forall_cons in Hbs as [Hb Hbs].
    destruct (calculateGE_block_calls fr b h Hb) as (h1 & Hblock & Hsub1).
    destruct (IH h1) as (h2 & Hrest & Hsub2).
    { eapply Forall_impl; [exact Hbs|]. intros b' ?. by eapply holds_weaken. }
    exists h2. split; [|by etrans].
    rewrite fmap_cons. cbn [for_each].
    by rewrite (io_bind_inr _ _ _ _ _ _ _ _ Hblock Hrest).
Qed.

(** Whatever the store and the blocks, what [calculateGE] calls is the
    creation of the field and then [addData] only. *)
Lemma io_bind_Forall {A B} (P : call T obj → Prop) (m : IO T obj A)
    (k : A → IO T obj B) h :
  Forall P (fst (m h)) → (∀ x h', Forall P (fst (k x h'))) →
  Forall P (fst (io_bind m k h)).
Proof.
  unfold io_bind. destruct (m h) as [t [e|[x h']]]; simpl; [done|].
  intros Ht Hk. specialize (Hk x h'). destruct (k x h'); simpl in *.
  by apply Forall_app.
Qed.

Lemma run_Forall {A} (P : call T obj → Prop) (m : M T A) h :
  Forall P (fst (run m h)).
Proof. unfold run. destruct (m h); constructor. Qed.

Lemma addData_is_addData (fr : frame obj) name p i l d sp lcs h :
  Forall is_addData (fst (addData fr name p i l d sp lcs h)).
Proof.
  unfold addData. apply io_bind_Forall; [apply run_Forall|]. intros a h1.
  apply io_bind_Forall.
  - destruct lcs; [|constructor].
    apply io_bind_Forall; [apply run_Forall|]. intros; constructor.
  - intros m h2. by repeat constructor.
Qed.

Lemma calculateGE_block_is_addData (fr : frame obj) (b : block obj) h :
  Forall is_addData
    (fst (calculateGE_block uninit nonzero truth enableLocalCoordSystem fr b h)).
Proof.
  unfold calculateGE_block. apply io_bind_Forall; [apply run_Forall|].
  intros d h1. apply io_bind_Forall.
  { destruct enableLocalCoordSystem; [apply run_Forall|constructor]. }
  intros oriented h2. apply io_bind_Forall.
  { destruct (localCoordSystem b); [destruct oriented|]; try constructor.
    apply io_bind_Forall; [apply run_Forall|]. intros; constructor. }
  intros lcs h3. apply addData_is_addData.
Qed.

Lemma green_fails (o : pyobj T) h (a : ndarray T) :
  value h o = Some a →
  length (shape a) ≠ 2 ∨ shape a !! 1 ≠ Some 6 →
  fails_assertion (green uninit o) h.
Proof. intros Ho Hbad. by eapply validation_fails. Qed.

Lemma calculateGE_trace (NE : fieldOutput obj) (fr : frame obj) h :
  ∃ t, fst (calculateGE uninit nonzero truth enableLocalCoordSystem NE fr h)
       = GE_field_call NE fr :: t
       ∧ Forall is_addData t.
Proof.
  unfold calculateGE. rewrite io_bind_emit. eexists. split; [reflexivity|].
  apply for_each_Forall. intros b h'. apply calculateGE_block_is_addData.
Qed.

End OdbExec.

(** ** The functions that drive the array functions over a database *)

Section OdbProperties.
Context {T : Type} `{Scalar T} {obj : Type}.
Variable uninit : nat → T.
Variable nonzero : T → bool.
Variable truth : obj → bool.
Variable enableLocalCoordSystem : bool.
Variable openOdb : string → string + odb obj.
Implicit Types (h : heap T) (t : list (call T obj)).

(** X12. For a field whose blocks hold well-formed data, [calculateGE]
    creates the field "GE" with the type and invariants of NE, marked as an
    engineering tensor, and then calls [addData] once per block, in the
    order of the blocks: position, instance and labels passed on as they
    are, the data the Green strain of the block's data, the section point
    only if it is true, the orientation matrices only if orientation is
    enabled and the block has quaternions that are not all zero.  No array
    of the store is changed. *)
Theorem calculateGE_calls (NE : fieldOutput obj) (fr : frame obj)
    (bs : list (block_rows T obj)) h :
  bulkDataBlocks NE = the_block <$> bs →
  Forall (holds h) bs →
  ∃ h', calculateGE uninit nonzero truth enableLocalCoordSystem NE fr h
        = (GE_field_call NE fr :: (GE_call nonzero truth enableLocalCoordSystem fr <$> bs), inr (tt, h'))
        ∧ ∀ l a, h !! l = Some a → h' !! l = Some a.
Proof.
  intros HNE Hbs. unfold calculateGE. rewrite io_bind_emit, HNE.
  destruct (calculateGE_blocks_calls uninit nonzero truth enableLocalCoordSystem
              fr bs h Hbs) as (h' & -> & Hsub).
  exists h'. split; [done|]. intros l a Hl. by eapply lookup_weaken.
Qed.

(** X14. When a block's data has the wrong shape, [calculateGE] ends with
    the AssertionError of [green] after it has created the field and added
    the data of the blocks before: nothing is undone, and nothing is added
    for that block or the blocks after it. *)
Theorem calculateGE_stops_at_bad_block (NE : fieldOutput obj) (fr : frame obj)
    (bs : list (block_rows T obj)) (bad : block obj) (rest : list (block obj))
    (a : ndarray T) h :
  bulkDataBlocks NE = (the_block <$> bs) ++ bad :: rest →
  Forall (holds h) bs →
  h !! block_data bad = Some a →
  length (shape a) ≠ 2 ∨ shape a !! 1 ≠ Some 6 →
  ∃ msg, calculateGE uninit nonzero truth enableLocalCoordSystem NE fr h
         = (GE_field_call NE fr :: (GE_call nonzero truth enableLocalCoordSystem fr <$> bs),
            inl (Raised (AssertionError msg))).
Proof.
  intros HNE Hbs Hbad Hshape. unfold calculateGE. rewrite io_bind_emit, HNE.
  destruct (calculateGE_blocks_calls uninit nonzero truth enableLocalCoordSystem
              fr bs h Hbs) as (h' & Hloop & Hsub).
  assert (value h' (Ref (block_data bad)) = Some a) as Hv
    by by eapply lookup_weaken.
  destruct (green_fails uninit _ h' a Hv Hshape) as [msg Hmsg].
  exists msg.
  erewrite for_each_inl; [|exact Hloop|].
  - by rewrite app_nil_r.
  - unfold calculateGE_block. apply io_bind_run_inl. exact Hmsg.
Qed.

(** X15. Once the database is open, [fromOdb] closes it however the work
    ends: its calls are the opening, then calls that create fields and add
    data, then the closing. *)
Theorem fromOdb_closes (odbName : string) (db : odb obj) h :
  openOdb odbName = inr db →
  ∃ t, fst (fromOdb uninit nonzero truth enableLocalCoordSystem openOdb odbName h)
       = openOdb_call odbName :: t ++ [close_call odbName]
       ∧ Forall is_field_call t.
Proof.
  intros Hopen. unfold fromOdb. rewrite io_bind_emit, Hopen.
  rewrite finally_emit. cbn [fst]. eexists. split; [reflexivity|].
  apply for_each_Forall. intros st h1. apply for_each_Forall. intros fr h2.
  unfold fromOdb_frame. destruct (fieldOutputs fr !! "NE") as [NE|]; [|done].
  destruct (calculateGE_trace uninit nonzero truth enableLocalCoordSystem NE fr h2)
    as (t & -> & Ht).
  constructor; [done|]. eapply Forall_impl; [exact Ht|]. by intros [].
Qed.

(** X16. When the database cannot be opened, [fromOdb] ends with the
    database's error and calls nothing else, no closing either. *)
Theorem fromOdb_cannot_open (odbName msg : string) h :
  openOdb odbName = inl msg →
  fromOdb uninit nonzero truth enableLocalCoordSystem openOdb odbName h
  = ([openOdb_call odbName], inl (OdbError msg)).
Proof. intros Hopen. unfold fromOdb. by rewrite io_bind_emit, Hopen. Qed.

(** X17. A database none of whose frames has a field "NE" is opened and
    closed, and nothing else: no field is created, and the store is as it
    was. *)
Theorem fromOdb_without_NE (odbName : string) (db : odb obj) h :
  openOdb odbName = inr db →
  Forall (λ fr, fieldOutputs fr !! "NE" = None) (all_frames db) →
  fromOdb uninit nonzero truth enableLocalCoordSystem openOdb odbName h
  = ([openOdb_call odbName; close_call odbName], inr (tt, h)).
Proof.
  intros Hopen Hno. unfold fromOdb. rewrite io_bind_emit, Hopen, finally_emit.
  unfold all_frames in Hno. rewrite for_each_nothing; [done|].
  induction (snd <$> steps db) as [|st sts IH]; [done|].
  rewrite bind_cons in Hno. apply Forall_app in Hno as [Hst Hsts].
  constructor; [|by apply IH].
  intros h'. apply for_each_nothing.
  eapply Forall_impl; [exact Hst|]. intros fr Hfr h''.
  unfold fromOdb_frame. by rewrite Hfr.
Qed.

(** X18. When [fromOdb] ends well, it has created a field in exactly the
    frames that have a field "NE", once each, in the order of the steps and
    of their frames. *)
Theorem fromOdb_creates_fields (odbName : string) (db : odb obj) h t r :
  openOdb odbName = inr db →
  fromOdb uninit nonzero truth enableLocalCoordSystem openOdb odbName h
  = (t, inr r) →
  created_in t
  = filter (λ fr, is_Some (fieldOutputs fr !! "NE")) (all_frames db).
Proof.
  intros Hopen. unfold fromOdb. rewrite io_bind_emit, Hopen, finally_emit.
  set (body := for_each _ _).
  destruct (body h) as [t1 r1] eqn:Hbody. cbn [fst snd].
  intros [= <- ->].
  change (openOdb_call odbName :: t1 ++ [close_call odbName])
    with ([openOdb_call odbName] ++ t1 ++ [close_call odbName]).
  rewrite !created_in_app.
  change (created_in [openOdb_call odbName]) with (@nil (frame obj)).
  change (created_in [close_call odbName]) with (@nil (frame obj)).
  rewrite app_nil_l, app_nil_r.
  set (g := λ fr : frame obj,
         if decide (is_Some (fieldOutputs fr !! "NE")) then [fr] else []).
  assert (created_in t1 = (snd <$> steps db) ≫= (λ st, frames st ≫= g)) as ->.
  { eapply for_each_created; [|exact Hbody].
    intros st h1 t2 r2 Hst. eapply for_each_created; [|exact Hst].
    intros fr h2 t3 r3. unfold fromOdb_frame, g.
    destruct (fieldOutputs fr !! "NE") as [NE|] eqn:HNE.
    - rewrite decide_True by done. intros Hcalc.
      destruct (calculateGE_trace uninit nonzero truth enableLocalCoordSystem NE fr h2)
        as (t4 & Ht4 & Hadd). rewrite Hcalc in Ht4. simpl in Ht4. subst t3.
      cbn [created_in omap GE_field_call]. f_equal.
      clear Hcalc. induction Hadd as [|c t4 Hc _ IH]; [done|].
      destruct c; try done.
    - rewrite decide_False by by intros [? [=]]. by intros [= <- _]. }
  clear Hbody. clear body. unfold all_frames.
  induction (snd <$> steps db) as [|st sts IH]; [done|].
  rewrite !bind_cons, filter_app, IH. f_equal.
  clear IH. induction (frames st) as [|fr frs IH]; [done|].
  rewrite bind_cons, filter_cons, IH. unfold g. by destruct (decide _).
Qed.

(** X13. With orientation switched off, [calculateGE] never passes a
    [localCoordSystem] to [addData], whatever the blocks hold. *)
Theorem calculateGE_without_orientation (NE : fieldOutput obj) (fr : frame obj) h :
  Forall passes_no_orientation
    (fst (calculateGE uninit nonzero truth false NE fr h)).
Proof.
  unfold calculateGE. rewrite io_bind_emit. constructor; [done|].
  apply for_each_Forall. intros b h1. unfold calculateGE_block.
  unfold io_bind at 1, run.
  destruct (green uninit (Ref (block_data b)) h1) as [e|[d h2]]; [done|].
  rewrite io_bind_ret.
  assert (∀ k : option loc → IO T obj unit,
            io_bind (match localCoordSystem b with
                     | Some l => if false then
                         io_bind (run (calculateGE_localCoordSystem l))
                           (λ m, io_ret (Some m))
                       else io_ret None
                     | None => io_ret None
                     end) k h2 = k None h2) as ->.
  { intros k. destruct (localCoordSystem b); apply io_bind_ret. }
  unfold addData, io_bind at 1, run.
  destruct (load d h2) as [e|[a h3]]; [done|].
  rewrite io_bind_ret. simpl. by repeat constructor.
Qed.

(** X19. The flags "--help" and "--test" open no database: a command line
    of flags only prints the documentation or runs the doctests, once per
    flag and in their order, and ends well with the store as it was. *)
Theorem main_flags_only (prog : string) (flags : list string) h :
  Forall is_flag flags →
  main uninit nonzero truth enableLocalCoordSystem openOdb (prog :: flags) h
  = (flags ≫= flag_calls, inr (tt, h)).
Proof.
  intros Hflags. unfold main. change (drop 1 (prog :: flags)) with flags.
  induction Hflags as [|arg flags Harg _ IH]; [done|].
  cbn [for_each]. rewrite bind_cons.
  erewrite io_bind_inr; [reflexivity| |exact IH].
  unfold main_arg, flag_calls. destruct Harg as [-> | ->].
  - by rewrite decide_True.
  - rewrite decide_False by done. rewrite decide_True by done.
    by rewrite io_bind_emit.
Qed.

(** X20. An argument naming a database that cannot be opened ends the run
    with the database's error, whatever the arguments before it were (flags
    or databases), as long as the run reached it: the calls made for the
    earlier arguments are followed by the echo of the argument on stderr
    and the attempt to open it, and nothing is done for the arguments after
    it. *)
Theorem main_stops_when_open_fails (prog : string) (before : list string)
    (arg msg : string) (later : list string) h t1 h1 :
  main uninit nonzero truth enableLocalCoordSystem openOdb (prog :: before) h
  = (t1, inr (tt, h1)) →
  ¬ is_flag arg →
  openOdb arg = inl msg →
  main uninit nonzero truth enableLocalCoordSystem openOdb
    (prog :: before ++ arg :: later) h
  = (t1 ++ [print_stderr_call arg; openOdb_call arg], inl (OdbError msg)).
Proof.
  unfold main.
  change (drop 1 (prog :: before)) with before.
  change (drop 1 (prog :: before ++ arg :: later)) with (before ++ arg :: later).
  intros Hbefore Harg Hopen.
  eapply for_each_inl; [exact Hbefore|].
  unfold main_arg, is_flag in *.
  rewrite decide_False by (intros <-; tauto).
  rewrite decide_False by (intros <-; tauto).
  rewrite io_bind_emit.
  unfold fromOdb. by rewrite io_bind_emit, Hopen.
Qed.

End OdbProperties.

(** ** Concrete runs of these properties *)

Lemma tensor2_leaves_its_argument_witness :
  ∃ r h' AA,
    tensor2 (λ _, 7%float) (Ref 0) example_store = inr (r, h')
    ∧ h' !! r = Some AA
    ∧ shape AA = [1; 6] ∧ well_formed AA
    ∧ value h' (Ref 0) = Some (NdArray [1; 6] [1; 2; 3; 4; 5; 6]%float)
    ∧ (Ref 0 : pyobj float) ≠ Ref r
    ∧ ∀ l0 a0, example_store !! l0 = Some a0 → h' !! l0 = Some a0.
Proof.
  apply (tensor2_leaves_its_argument (λ _, 7%float) (Ref 0) example_store
           (NdArray [1; 6] [1; 2; 3; 4; 5; 6]%float) 1); reflexivity.
Defined.

Lemma quat2matrix_shape_witness :
  ∃ matrices, returns (quat2matrix (Ref 1)) example_store matrices
              ∧ shape matrices = [1; 3; 3] ∧ well_formed matrices.
Proof.
  apply (quat2matrix_shape (Ref 1) example_store
           (NdArray [1; 4] [0; 0; 0; 1]%float) 1); reflexivity.
Defined.

Lemma tensor2_error_messages_witness :
  tensor2 (λ _, 7%float) (Nested (NdArray [6] [1; 2; 3; 4; 5; 6]%float)) ∅
  = inl (AssertionError "Data must be a 2D array of tensors")
  ∧ tensor2 (λ _, 7%float) (Ref 2) example_store
    = inl (AssertionError "Data elements must be in Abaqus symmetric tensor format").
Proof.
  split.
  - apply (tensor2_error_messages (λ _, 7%float)
             (Nested (NdArray [6] [1; 2; 3; 4; 5; 6]%float)) ∅
             (NdArray [6] [1; 2; 3; 4; 5; 6]%float) eq_refl).
    simpl. lia.
  - apply (tensor2_error_messages (λ _, 7%float) (Ref 2) example_store
             (NdArray [1; 5] [0; 0; 0; 1; 2]%float) eq_refl);
      [reflexivity|simpl; congruence].
Defined.

Lemma green_error_messages_witness :
  green (λ _, 7%float) (Nested (NdArray [6] [1; 2; 3; 4; 5; 6]%float)) ∅
  = inl (AssertionError "NEarray must be a 2D array of tensors")
  ∧ green (λ _, 7%float) (Ref 2) example_store
    = inl (AssertionError "NEarray elements must be in Abaqus symmetric tensor format").
Proof.
  split.
  - apply (green_error_messages (λ _, 7%float)
             (Nested (NdArray [6] [1; 2; 3; 4; 5; 6]%float)) ∅
             (NdArray [6] [1; 2; 3; 4; 5; 6]%float) eq_refl).
    simpl. lia.
  - apply (green_error_messages (λ _, 7%float) (Ref 2) example_store
             (NdArray [1; 5] [0; 0; 0; 1; 2]%float) eq_refl);
      [reflexivity|simpl; congruence].
Defined.

Lemma quat2matrix_error_messages_witness :
  quat2matrix (Nested (NdArray [4] [0; 0; 0; 1]%float)) ∅
  = inl (AssertionError "Must be a 2D array")
  ∧ quat2matrix (Ref 2) example_store
    = inl (AssertionError "Must be an array of quaternions").
Proof.
  split.
  - apply (quat2matrix_error_messages
             (Nested (NdArray [4] [0; 0; 0; 1]%float)) ∅
             (NdArray [4] [0; 0; 0; 1]%float) eq_refl).
    simpl. lia.
  - apply (quat2matrix_error_messages (Ref 2) example_store
             (NdArray [1; 5] [0; 0; 0; 1; 2]%float) eq_refl);
      [reflexivity|simpl; congruence].
Defined.

Lemma green_ignores_uninitialised_memory_witness :
  ∃ GE, result_of (green (λ _, 7%float) (Ref 0)) example_store = inr GE
        ∧ result_of (green (λ i, PrimFloat.of_uint63 (Uint63.of_Z (Z.of_nat i)))
                       (Ref 0)) example_store = inr GE.
Proof.
  apply (green_ignores_uninitialised_memory (λ _, 7%float)
           (λ i, PrimFloat.of_uint63 (Uint63.of_Z (Z.of_nat i)))
           (Ref 0) example_store (NdArray [1; 6] [1; 2; 3; 4; 5; 6]%float) 1);
    reflexivity.
Defined.

Lemma green_is_the_docstring_formula_witness :
  returns (green (λ _, 0%R) (Nested (batch [Sym 1 2 3 4 5 6]%R))) ∅
    (batch ((λ row, engineering (green_tensor row)) <$> [Sym 1 2 3 4 5 6]%R)).
Proof. apply green_is_the_docstring_formula. reflexivity. Defined.

Lemma green_is_nominal_plus_second_order_witness :
  returns (green (λ _, 0%R) (Nested (batch [Sym 1 2 3 4 5 6]%R))) ∅
    (batch ((λ row, engineering
                      (madd (nominal_tensor row)
                         (mhalf (mmul (nominal_tensor row) (nominal_tensor row)))))
            <$> [Sym 1 2 3 4 5 6]%R)).
Proof. apply green_is_nominal_plus_second_order. reflexivity. Defined.

Lemma quat2matrix_of_negated_quaternions_witness :
  ∃ matrices,
    returns (quat2matrix (Nested (quats [Quat 1 0 0 1]%R))) ∅ matrices
    ∧ returns (quat2matrix (Nested (quats (negate <$> [Quat 1 0 0 1]%R)))) ∅ matrices.
Proof.
  apply (quat2matrix_of_negated_quaternions
           (Nested (quats [Quat 1 0 0 1]%R))
           (Nested (quats (negate <$> [Quat 1 0 0 1]%R))) ∅ [Quat 1 0 0 1]%R);
    reflexivity.
Defined.

Lemma quat2matrix_determinant_witness :
  ∃ ms, returns (quat2matrix (Nested (quats [Quat 0 0 1 0]%R))) ∅ (mats ms)
        ∧ length ms = 1
        ∧ Forall (λ m, det3 m = 1%R) ms.
Proof.
  apply (quat2matrix_determinant (Nested (quats [Quat 0 0 1 0]%R)) ∅
           [Quat 0 0 1 0]%R).
  - repeat constructor. unfold unit_quaternion. simpl. lra.
  - reflexivity.
Defined.

Lemma orientation_branch_wrong_columns_witness :
  calculateGE_localCoordSystem 0 ({[ 0 := NdArray [1; 3] [0; 0; 1]%float ]} : heap float)
  = inl IndexError
  ∧ calculateGE_localCoordSystem 2 example_store
    = inl (AssertionError "Must be an array of quaternions").
Proof.
  split.
  - apply (orientation_branch_wrong_columns
             ({[ 0 := NdArray [1; 3] [0; 0; 1]%float ]} : heap float) 0
             (NdArray [1; 3] [0; 0; 1]%float) 1 3); [reflexivity..|lia].
  - apply (orientation_branch_wrong_columns example_store 2
             (NdArray [1; 5] [0; 0; 0; 1; 2]%float) 1 5);
      [reflexivity..|lia].
Defined.

Lemma calculateGE_calls_witness :
  ∃ h', calculateGE (λ _, 7%float) example_nonzero example_truth true
          example_NE example_frame example_store
        = (GE_field_call example_NE example_frame
             :: (GE_call example_nonzero example_truth true example_frame
                   <$> example_rows),
           inr (tt, h'))
        ∧ ∀ l a, example_store !! l = Some a → h' !! l = Some a.
Proof.
  apply (calculateGE_calls (λ _, 7%float) example_nonzero example_truth true
           example_NE example_frame example_rows example_store).
  - reflexivity.
  - repeat constructor.
Defined.

Lemma calculateGE_stops_at_bad_block_witness :
  ∃ msg, calculateGE (λ _, 7%float) example_nonzero example_truth true
           example_bad_NE example_frame example_store
         = (GE_field_call example_bad_NE example_frame
              :: (GE_call example_nonzero example_truth true example_frame
                    <$> [BlockRows example_plain [Sym 1 2 3 4 5 6]%float None]),
            inl (Raised (AssertionError msg))).
Proof.
  apply (calculateGE_stops_at_bad_block (λ _, 7%float) example_nonzero
           example_truth true example_bad_NE example_frame
           [BlockRows example_plain [Sym 1 2 3 4 5 6]%float None]
           example_bad [example_oriented]
           (NdArray [1; 5] [0; 0; 0; 1; 2]%float) example_store).
  - reflexivity.
  - repeat constructor.
  - reflexivity.
  - right. simpl. congruence.
Defined.

Lemma fromOdb_closes_witness :
  ∃ t, fst (fromOdb (λ _, 7%float) example_nonzero example_truth true
              example_openOdb "Job-1.odb" example_store)
       = openOdb_call "Job-1.odb" :: t ++ [close_call "Job-1.odb"]
       ∧ Forall is_field_call t.
Proof.
  apply (fromOdb_closes (λ _, 7%float) example_nonzero example_truth true
           example_openOdb "Job-1.odb" example_odb example_store).
  reflexivity.
Defined.

Lemma fromOdb_cannot_open_witness :
  fromOdb (λ _, 7%float) example_nonzero example_truth true
    example_openOdb "missing.odb" example_store
  = ([openOdb_call "missing.odb"], inl (OdbError "cannot open")).
Proof. apply fromOdb_cannot_open. reflexivity. Defined.

Lemma fromOdb_without_NE_witness :
  fromOdb (λ _, 7%float) example_nonzero example_truth true
    example_openOdb "Job-2.odb" example_store
  = ([openOdb_call "Job-2.odb"; close_call "Job-2.odb"], inr (tt, example_store)).
Proof.
  apply (fromOdb_without_NE (λ _, 7%float) example_nonzero example_truth true
           example_openOdb "Job-2.odb" example_odb_without_NE example_store).
  - reflexivity.
  - repeat constructor.
Defined.

Lemma fromOdb_creates_fields_witness :
  ∃ t r, fromOdb (λ _, 7%float) example_nonzero example_truth true
           example_openOdb "Job-1.odb" example_store = (t, inr r)
         ∧ created_in t
           = filter (λ fr, is_Some (fieldOutputs fr !! "NE"))
               (all_frames example_odb).
Proof.
  destruct (fromOdb (λ _, 7%float) example_nonzero example_truth true
              example_openOdb "Job-1.odb" example_store) as [t [e|r]] eqn:E.
  - exfalso. vm_compute in E. discriminate.
  - exists t, r. split; [reflexivity|].
    exact (fromOdb_creates_fields (λ _, 7%float) example_nonzero example_truth
             true example_openOdb "Job-1.odb" example_odb example_store t r
             eq_refl E).
Defined.

Lemma main_flags_only_witness :
  main (λ _, 7%float) example_nonzero example_truth true example_openOdb
    ["greenStrain.py"; "--help"; "--test"] example_store
  = (["--help"; "--test"] ≫= flag_calls, inr (tt, example_store)).
Proof.
  apply main_flags_only.
  constructor; [by left|]. constructor; [by right|]. constructor.
Defined.

Lemma main_stops_when_open_fails_witness :
  ∃ t1 h1,
    main (λ _, 7%float) example_nonzero example_truth true example_openOdb
      ["greenStrain.py"; "--help"; "Job-1.odb"] example_store
    = (t1, inr (tt, h1))
    ∧ In (close_call "Job-1.odb") t1
    ∧ main (λ _, 7%float) example_nonzero example_truth true example_openOdb
        ("greenStrain.py" :: ["--help"; "Job-1.odb"]
           ++ "missing.odb" :: ["Job-2.odb"])
        example_store
      = (t1 ++ [print_stderr_call "missing.odb"; openOdb_call "missing.odb"],
         inl (OdbError "cannot open")).
Proof.
  destruct (main (λ _, 7%float) example_nonzero example_truth true
              example_openOdb ["greenStrain.py"; "--help"; "Job-1.odb"]
              example_store) as [t1 [e|[[] h1]]] eqn:E.
  - exfalso. vm_compute in E. discriminate.
  - exists t1, h1. split; [reflexivity|]. split.
    + apply (f_equal fst) in E. vm_compute in E. subst t1.
      do 6 right. by left.
    + apply (main_stops_when_open_fails (λ _, 7%float) example_nonzero
               example_truth true example_openOdb "greenStrain.py"
               ["--help"; "Job-1.odb"] "missing.odb" "cannot open"
               ["Job-2.odb"] example_store t1 h1 E).
      * intros [Hf|Hf]; discriminate Hf.
      * reflexivity.
Defined.

(** The whole command line on the small database. *)
Example main_on_the_example :
  fst (main (λ _, 7%float) example_nonzero example_truth true example_openOdb
         ["greenStrain.py"; "Job-1.odb"] example_store)
  = [print_stderr_call "Job-1.odb";
     openOdb_call "Job-1.odb";
     FieldOutput_call example_frame "GE" "Green strain components"
       "TENSOR_3D_FULL" "invariants" true;
     addData_call example_frame "GE"
       (Options "INTEGRATION_POINT" "PART-1-1" "labels 1"
          (NdArray [1; 6] [6.625; 10.5; 15.125; 17.5; 21; 26]%float)
          (Some "top")
          (Some (NdArray [1; 3; 3] [1; 0; 0; 0; 1; 0; 0; 0; 1]%float)));
     addData_call example_frame "GE"
       (Options "INTEGRATION_POINT" "PART-1-1" "labels 2"
          (NdArray [1; 6] [6.625; 10.5; 15.125; 17.5; 21; 26]%float)
          None None);
     close_call "Job-1.odb"].
Proof. vm_compute. reflexivity. Qed.
